(** * MPC print bleed border tool: embedding of [add_mpc_bleed.py]

    The development follows the Python module top-down:

    - [Float64]: the binary64 arithmetic that Python's [float] performs,
      taken from the Standard Library's executable IEEE 754 specification
      ([SpecFloat], precision 53, [emax] 1024), together with Python's
      [int -> float] and [float -> int] conversions;
    - [calculate_bleed_pixels]: the margin calculator;
    - [PIL]: the Pillow operations the tool and its test call ([Image.new],
      [Image.crop], [Image.paste], [getpixel], [putpixel]) on images stored as
      lists of rows;
    - [extended_img]: the canvas computed by the body of [add_bleed_border];
    - [add_bleed_border] and [process_images]: the per-file operation with its
      [try/except], and the batch loop with its two counters, over an abstract
      file system;
    - [bar]: the progress bar that the batch loop shows;
    - [find_image_files]: the scan of the input folder, with pathlib's
      [suffix] and the lower-casing of the extension;
    - [get_folder_path]: the prompt loop, over the lines that [input] returns.

    What the module prints besides (banner, spinner, messages, summary) is
    left out: it does not influence any value computed here.

    Definitions come first; their theory and the properties of the tool
    follow. *)

From Stdlib Require Import ZArith NArith List Bool Lia String Ascii.
From Stdlib Require Import SpecFloat.
From Stdlib Require Import QArith Qround.
From Stdlib Require Import Reals Lra Psatz.
Import ListNotations.

Open Scope Z_scope.

(* ================================================================= *)
(** ** Python results *)

(** The exceptions that the modelled code can raise.  All of them derive from
    [Exception], so the handler of [add_bleed_border] catches each one. *)
Inductive PyExn : Type :=
| OverflowError
| ValueError
| ZeroDivisionError
| IndexError
| OSError.

Inductive PyResult (A : Type) : Type :=
| Ok (a : A)
| Raise (e : PyExn).

Arguments Ok {A} a.
Arguments Raise {A} e.

Definition py_bind {A B : Type} (r : PyResult A) (k : A -> PyResult B) : PyResult B :=
  match r with
  | Ok a => k a
  | Raise e => Raise e
  end.

Declare Scope py_scope.
Delimit Scope py_scope with py.
Notation "x <- r ;; k" := (py_bind r (fun x => k))
  (at level 61, r at next level, right associativity) : py_scope.
Notation "' pat <- r ;; k" := (py_bind r (fun x => match x with pat => k end))
  (at level 61, pat pattern, r at next level, right associativity) : py_scope.

(* ================================================================= *)
(** ** Python floats *)

Module Float64.

Definition prec : Z := 53.
Definition emax : Z := 1024.

Definition float : Type := spec_float.

(** [float(n)] for a Python [int]: the nearest binary64 value, ties to even;
    [OverflowError] when that value would not be finite. *)
Definition of_int (n : Z) : PyResult float :=
  match binary_normalize prec emax n 0 false with
  | S754_infinity _ => Raise OverflowError
  | f => Ok f
  end.

(** [x * y] on floats never raises: an overflow yields an infinity. *)
Definition mul (x y : float) : float := SFmul prec emax x y.

(** [x / y] on floats raises [ZeroDivisionError] on a zero divisor. *)
Definition truediv (x y : float) : PyResult float :=
  match y with
  | S754_zero _ => Raise ZeroDivisionError
  | _ => Ok (SFdiv prec emax x y)
  end.

(** [int(x)]: truncation toward zero; [ValueError] on a NaN and
    [OverflowError] on an infinity. *)
Definition to_int (x : float) : PyResult Z :=
  match x with
  | S754_nan => Raise ValueError
  | S754_infinity _ => Raise OverflowError
  | S754_zero _ => Ok 0
  | S754_finite s m e => Ok (cond_Zopp s (Z.shiftl (Zpos m) e))
  end.

(** The literals [4.84] and [3.47] denote the binary64 values nearest to
    the decimals: [0x1.35c28f5c28f5cp+2] and [0x1.bc28f5c28f5c3p+1]. *)
Definition lit_4_84 : float := S754_finite false 5449355549118300 (-50).
Definition lit_3_47 : float := S754_finite false 7813745353487811 (-51).

End Float64.

(* ================================================================= *)
(** ** The margin calculator *)

Open Scope py_scope.

Definition WIDTH_BLEED_PERCENT : Float64.float := Float64.lit_4_84.
Definition HEIGHT_BLEED_PERCENT : Float64.float := Float64.lit_3_47.

(** [int((n * percent) / 100)], the expression of lines 138 and 139: the
    [int] operand of each binary operation is converted to [float] first. *)
Definition bleed_per_side (n : Z) (percent : Float64.float) : PyResult Z :=
  fn <- Float64.of_int n ;;
  let product := Float64.mul fn percent in
  hundred <- Float64.of_int 100 ;;
  quotient <- Float64.truediv product hundred ;;
  Float64.to_int quotient.

Definition calculate_bleed_pixels (width height : Z) : PyResult (Z * Z * Z * Z) :=
  horizontal_bleed_per_side <- bleed_per_side width WIDTH_BLEED_PERCENT ;;
  vertical_bleed_per_side <- bleed_per_side height HEIGHT_BLEED_PERCENT ;;
  Ok (vertical_bleed_per_side, vertical_bleed_per_side,
      horizontal_bleed_per_side, horizontal_bleed_per_side).

(* ================================================================= *)
(** ** Pillow images *)

(** Python's [range(a, b)]. *)
Definition range (a b : Z) : list Z :=
  map (fun i => a + Z.of_nat i) (seq 0 (Z.to_nat (b - a))).

Module PIL.

(** A pixel holds one value per band; an ["RGB"] pixel has three. *)
Definition Pixel : Type := list Z.

Record Image : Type := mkImage {
  mode : string;
  width : Z;
  height : Z;
  data : list (list Pixel)   (* rows, top to bottom *)
}.

Definition size (im : Image) : Z * Z := (width im, height im).

Definition getbands (m : string) : nat :=
  if String.eqb m "RGB" then 3%nat
  else if String.eqb m "RGBA" then 4%nat
  else if String.eqb m "CMYK" then 4%nat
  else if String.eqb m "YCbCr" then 3%nat
  else if String.eqb m "LA" then 2%nat
  else 1%nat.

(** The fill of [Image.new] when no colour is given: zero in every band. *)
Definition zero_pixel (m : string) : Pixel := repeat 0 (getbands m).

Definition inside (im : Image) (x y : Z) : bool :=
  (0 <=? x) && (x <? width im) && (0 <=? y) && (y <? height im).

(** Reading the buffer; positions outside the image read as zero, which is
    what [crop] produces for the part of a box that leaves the image. *)
Definition load (im : Image) (x y : Z) : Pixel :=
  if inside im x y
  then nth (Z.to_nat x) (nth (Z.to_nat y) (data im) []) (zero_pixel (mode im))
  else zero_pixel (mode im).

(** [im.getpixel((x, y))]; [None] stands for the [IndexError] raised outside
    the image. *)
Definition getpixel (im : Image) (xy : Z * Z) : option Pixel :=
  let '(x, y) := xy in
  if inside im x y then Some (load im x y) else None.

Definition tabulate (w h : Z) (f : Z -> Z -> Pixel) : list (list Pixel) :=
  map (fun y => map (fun x => f x y) (range 0 w)) (range 0 h).

(** [Image.new(mode, size)] *)
Definition new (m : string) (sz : Z * Z) : PyResult Image :=
  let '(w, h) := sz in
  if (w <? 0) || (h <? 0) then Raise ValueError
  else Ok (mkImage m w h (tabulate w h (fun _ _ => zero_pixel m))).

(** [im.crop((left, upper, right, lower))]: a new image of size
    [(right - left, lower - upper)].  The boxes that the tool crops have
    [left < right] and [upper < lower]. *)
Definition crop (im : Image) (box : Z * Z * Z * Z) : Image :=
  let '(left_, upper, right_, lower) := box in
  mkImage (mode im) (right_ - left_) (lower - upper)
    (tabulate (right_ - left_) (lower - upper)
       (fun x y => load im (x + left_) (y + upper))).

(** [dst.paste(src, (x0, y0))] for images of one mode: the box of [src]'s
    size at [(x0, y0)] is overwritten, clipped to [dst]. *)
Definition paste (dst src : Image) (at_ : Z * Z) : Image :=
  let '(x0, y0) := at_ in
  mkImage (mode dst) (width dst) (height dst)
    (tabulate (width dst) (height dst)
       (fun x y =>
          if (x0 <=? x) && (x <? x0 + width src) &&
             (y0 <=? y) && (y <? y0 + height src)
          then load src (x - x0) (y - y0)
          else load dst x y)).

(** [im.putpixel((x, y), value)]; [IndexError] outside the image. *)
Fixpoint set_nth {A : Type} (n : nat) (f : A -> A) (l : list A) : list A :=
  match l, n with
  | [], _ => []
  | a :: l', O => f a :: l'
  | a :: l', S n' => a :: set_nth n' f l'
  end.

Definition putpixel (im : Image) (xy : Z * Z) (value : Pixel) : PyResult Image :=
  let '(x, y) := xy in
  if inside im x y then
    Ok (mkImage (mode im) (width im) (height im)
          (set_nth (Z.to_nat y) (set_nth (Z.to_nat x) (fun _ => value))
             (data im)))
  else Raise IndexError.

(** The buffer has [height] rows of [width] pixels. *)
Definition wf (im : Image) : Prop :=
  0 <= width im /\ 0 <= height im /\
  List.length (data im) = Z.to_nat (height im) /\
  Forall (fun row => List.length row = Z.to_nat (width im)) (data im).

End PIL.

Import PIL.

(* ================================================================= *)
(** ** The body of [add_bleed_border] *)

(** Each of the four guarded blocks of lines 170-193 is one function of the
    canvas; [paste_and_extend] runs line 168 and then the four blocks in the
    order of the source. *)

(** Lines 172-175: the top edge. *)
Definition extend_top (extended_img img : Image) (top left_ : Z) : Image :=
  if 0 <? top then
    let top_edge := crop img (0, 0, width img, 1) in
    fold_left (fun ext y => paste ext top_edge (left_, y))
              (range 0 top) extended_img
  else extended_img.

(** Lines 178-181: the bottom edge. *)
Definition extend_bottom (extended_img img : Image)
    (top bottom left_ new_height : Z) : Image :=
  if 0 <? bottom then
    let bottom_edge :=
      crop img (0, height img - 1, width img, height img) in
    fold_left (fun ext y => paste ext bottom_edge (left_, y))
              (range (top + height img) new_height) extended_img
  else extended_img.

(** Lines 184-187: the left edge, read from the canvas. *)
Definition extend_left (extended_img : Image) (left_ new_height : Z) : Image :=
  if 0 <? left_ then
    let left_edge := crop extended_img (left_, 0, left_ + 1, new_height) in
    fold_left (fun ext x => paste ext left_edge (x, 0))
              (range 0 left_) extended_img
  else extended_img.

(** Lines 190-193: the right edge, read from the canvas. *)
Definition extend_right (extended_img : Image)
    (width left_ right_ new_width new_height : Z) : Image :=
  if 0 <? right_ then
    let right_edge :=
      crop extended_img (left_ + width - 1, 0, left_ + width, new_height) in
    fold_left (fun ext x => paste ext right_edge (x, 0))
              (range (left_ + width) new_width) extended_img
  else extended_img.

(** Lines 167-193 on a canvas [extended_img]. *)
Definition paste_and_extend (extended_img img : Image)
    (top bottom left_ right_ : Z) : Image :=
  let '(width, height) := size img in
  let new_width := width + left_ + right_ in
  let new_height := height + top + bottom in
  let extended_img := paste extended_img img (left_, top) in
  let extended_img := extend_top extended_img img top left_ in
  let extended_img :=
    extend_bottom extended_img img top bottom left_ new_height in
  let extended_img := extend_left extended_img left_ new_height in
  let extended_img :=
    extend_right extended_img width left_ right_ new_width new_height in
  extended_img.

(** Lines 157-193, for the working copy [img] (already in mode ["RGB"]). *)
Definition extended_img (img : Image) : PyResult Image :=
  let '(width, height) := size img in
  '(top, bottom, left_, right_) <- calculate_bleed_pixels width height ;;
  let new_width := width + left_ + right_ in
  let new_height := height + top + bottom in
  canvas <- PIL.new "RGB" (new_width, new_height) ;;
  Ok (paste_and_extend canvas img top bottom left_ right_).

(* ================================================================= *)
(** ** Files and the batch driver *)

(** A path is its list of components; [name] is the last one and
    [folder / name] appends a component. *)
Definition Path : Type := list string.

Definition path_name (p : Path) : string := last p EmptyString.
Definition path_join (folder : Path) (name : string) : Path := folder ++ [name].

Section Driver.

(** The file system is abstract.  Decoding and encoding are Pillow's and the
    operating system's: each either raises or returns, and saving may change
    the file system. *)
Context {FS : Type}.
Variable Image_open : FS -> Path -> PyResult Image.
Variable Image_convert : Image -> string -> PyResult Image.
Variable Image_save : FS -> Image -> Path -> FS * PyResult unit.

(** The [try] block of [add_bleed_border], with the file system threaded
    through. *)
Definition add_bleed_border_try (fs : FS) (image_path output_folder : Path)
  : FS * PyResult unit :=
  match
    (img <- Image_open fs image_path ;;
     img <- (if String.eqb (mode img) "RGB" then Ok img
             else Image_convert img "RGB") ;;
     extended_img img)
  with
  | Raise e => (fs, Raise e)
  | Ok extended =>
      let output_path := path_join output_folder (path_name image_path) in
      Image_save fs extended output_path
  end.

(** [add_bleed_border]: [True] when the block completes, [False] when it
    raises (the handler prints the error and returns). *)
Definition add_bleed_border (fs : FS) (image_path output_folder : Path)
  : FS * bool :=
  match add_bleed_border_try fs image_path output_folder with
  | (fs', Ok _) => (fs', true)
  | (fs', Raise _) => (fs', false)
  end.

(** The loop of [process_images] with its counters [processed] and
    [failed]. *)
Definition process_images_step (output_folder : Path)
    (st : FS * Z * Z) (image_path : Path) : FS * Z * Z :=
  let '(fs, processed, failed) := st in
  let '(fs', ok) := add_bleed_border fs image_path output_folder in
  if ok then (fs', processed + 1, failed) else (fs', processed, failed + 1).

Definition process_images (fs : FS) (image_files : list Path)
    (output_folder : Path) : FS * Z * Z :=
  fold_left (process_images_step output_folder) image_files (fs, 0, 0).

(** The calls that the loop makes, in order, each with its result. *)
Fixpoint outcomes (fs : FS) (image_files : list Path) (output_folder : Path)
  : list (Path * bool) :=
  match image_files with
  | [] => []
  | image_path :: rest =>
      let '(fs', ok) := add_bleed_border fs image_path output_folder in
      (image_path, ok) :: outcomes fs' rest output_folder
  end.

End Driver.

(* ================================================================= *)
(** ** The progress bar of [process_images] *)

(** Python's [str] as the sequence of its code points. *)
Definition PyStr : Type := list N.

(** [ch * n] for a string [ch] of one character: empty when [n <= 0]. *)
Definition str_mul (ch : N) (n : Z) : PyStr := repeat ch (Z.to_nat n).

Definition FULL_BLOCK : N := 9608.    (* U+2588 *)
Definition LIGHT_SHADE : N := 9617.   (* U+2591 *)

(** Lines 218-220, for the index [i] that [enumerate(image_files, 1)]
    gives: [//] is the floor division of integers and raises on a zero
    divisor. *)
Definition bar_length : Z := 30.

Definition filled_length (i total_files : Z) : PyResult Z :=
  if total_files =? 0 then Raise ZeroDivisionError
  else Ok (bar_length * i / total_files).

Definition bar (i total_files : Z) : PyResult PyStr :=
  filled_length <- filled_length i total_files ;;
  Ok (str_mul FULL_BLOCK filled_length
      ++ str_mul LIGHT_SHADE (bar_length - filled_length)).

(* ================================================================= *)
(** ** Scanning the input folder *)

(** File names are kept as the bytes of their UTF-8 encoding.  The seven
    extensions are ASCII, the dot is one byte that occurs in no longer
    sequence, and no character outside ASCII has a lower-case form made of
    the letters of an extension: whether [suffix.lower()] is one of the
    extensions can be read from the bytes. *)

(** [str.lower] on a byte: the ASCII capitals move to the small letters. *)
Definition ascii_lower (c : ascii) : ascii :=
  let n := nat_of_ascii c in
  if (65 <=? n)%nat && (n <=? 90)%nat then ascii_of_nat (n + 32) else c.

Fixpoint lower (s : string) : string :=
  match s with
  | EmptyString => EmptyString
  | String c s' => String (ascii_lower c) (lower s')
  end.

(** [name.rfind('.')]; [None] stands for [-1]. *)
Fixpoint rfind_dot (name : string) : option nat :=
  match name with
  | EmptyString => None
  | String c name' =>
      match rfind_dot name' with
      | Some i => Some (S i)
      | None => if Ascii.eqb c "." then Some 0%nat else None
      end
  end.

(** [PurePath.suffix], as pathlib defines it up to Python 3.13: with
    [i = name.rfind('.')], the slice [name[i:]] when
    [0 < i < len(name) - 1], and the empty string otherwise. *)
Definition suffix (name : string) : string :=
  match rfind_dot name with
  | Some i =>
      if (0 <? i)%nat && (i <? String.length name - 1)%nat
      then substring i (String.length name - i) name
      else EmptyString
  | None => EmptyString
  end.

Definition image_extensions : list string :=
  [".jpg"; ".jpeg"; ".png"; ".bmp"; ".tiff"; ".tif"; ".webp"]%string.

Section Scan.

(** [rglob] is the listing that [input_folder.rglob('*')] yields, or the
    exception that stops it; [is_file] never raises. *)
Context {FS : Type}.
Variable rglob : FS -> Path -> PyResult (list Path).
Variable is_file : FS -> Path -> bool.

(** The test of line 113. *)
Definition is_image_file (fs : FS) (file_path : Path) : bool :=
  is_file fs file_path &&
  existsb (String.eqb (lower (suffix (path_name file_path)))) image_extensions.

(** Lines 105-118; the spinner only prints. *)
Definition find_image_files (fs : FS) (input_folder : Path)
  : PyResult (list Path) :=
  listing <- rglob fs input_folder ;;
  Ok (fold_left
        (fun image_files file_path =>
           if is_image_file fs file_path
           then image_files ++ [file_path]
           else image_files)
        listing []).

End Scan.

(* ================================================================= *)
(** ** Asking for a folder *)

(** [str.isspace] on one code point: the white space that [strip()]
    removes. *)
Definition isspace (c : N) : bool :=
  ((9 <=? c) && (c <=? 13) || (28 <=? c) && (c <=? 32) ||
   (c =? 133) || (c =? 160) || (c =? 5760) ||
   (8192 <=? c) && (c <=? 8202) ||
   (c =? 8232) || (c =? 8233) || (c =? 8239) || (c =? 8287) ||
   (c =? 12288))%N.

(** The two characters that the second [strip] of line 85 removes: the
    double quote and the single quote. *)
Definition is_quote (c : N) : bool := ((c =? 34) || (c =? 39))%N.

Fixpoint lstrip (chars : N -> bool) (s : PyStr) : PyStr :=
  match s with
  | [] => []
  | c :: s' => if chars c then lstrip chars s' else s
  end.

Definition rstrip (chars : N -> bool) (s : PyStr) : PyStr :=
  rev (lstrip chars (rev s)).

Definition strip (chars : N -> bool) (s : PyStr) : PyStr :=
  rstrip chars (lstrip chars s).

(** Line 85, applied to the line that [input] returned. *)
Definition path_str (line : PyStr) : PyStr :=
  strip is_quote (strip isspace line).

Section Prompt.

(** [Path_of] is the constructor [Path(path_str)]; [path_exists] and
    [is_dir] read the file system and never raise. *)
Context {FS : Type}.
Variable Path_of : PyStr -> Path.
Variable path_exists : FS -> Path -> bool.
Variable is_dir : FS -> Path -> bool.

(** The loop of [get_folder_path] over the lines that [input] will return,
    one for each round; [None] when they run out, where [input] raises
    [EOFError] and the function with it.  The result holds the path and the
    lines that are left. *)
Fixpoint get_folder_path (fs : FS) (must_exist : bool) (stdin : list PyStr)
  : option (Path * list PyStr) :=
  match stdin with
  | [] => None
  | line :: stdin' =>
      match path_str line with
      | [] => get_folder_path fs must_exist stdin'
      | _ :: _ =>
          let path := Path_of (path_str line) in
          if must_exist && negb (path_exists fs path)
          then get_folder_path fs must_exist stdin'
          else if must_exist && negb (is_dir fs path)
          then get_folder_path fs must_exist stdin'
          else Some (path, stdin')
      end
  end.

End Prompt.

(* ================================================================= *)
(** ** Vocabulary of the specification: binary64 rounding *)

Module Float64Spec.

Import Float64.
Local Open Scope R_scope.

Definition pow2 (e : Z) : R := powerRZ 2 e.

(** [located m e l v]: the triple of a mantissa, an exponent and a location
    that the rounding functions manipulate denotes the real number [v]. *)
Definition located (m e : Z) (l : location) (v : R) : Prop :=
  match l with
  | loc_Exact => v = IZR m * pow2 e
  | loc_Inexact Lt => IZR m * pow2 e < v < (IZR m + / 2) * pow2 e
  | loc_Inexact Eq => v = (IZR m + / 2) * pow2 e
  | loc_Inexact Gt => (IZR m + / 2) * pow2 e < v < (IZR m + 1) * pow2 e
  end.

Definition denotes (mrs : shr_record) (e : Z) (v : R) : Prop :=
  (0 <= shr_m mrs)%Z /\ located (shr_m mrs) e (loc_of_shr_record mrs) v.

(** [v] lies in the binade whose floats have exponent [E]. *)
Definition in_binade (E : Z) (v : R) : Prop :=
  pow2 (E + 52) <= v < pow2 (E + 53).

(** [M * 2^E] is a nearest multiple of [2^E] to [v], with an even [M] when
    [v] is half-way between two multiples. *)
Definition rne (M E : Z) (v : R) : Prop :=
  (4503599627370496 <= M <= 9007199254740992)%Z /\
  v - pow2 E / 2 <= IZR M * pow2 E <= v + pow2 E / 2 /\
  (IZR M * pow2 E = v - pow2 E / 2 \/ IZR M * pow2 E = v + pow2 E / 2 ->
   Z.even M = true).

(** The last step of [binary_round_aux]: renormalisation of a mantissa that
    rounding carried to [2^53], and the overflow test. *)
Definition finalize (M E : Z) : spec_float :=
  if (M =? 9007199254740992)%Z then
    if (E + 1 <=? 971)%Z then S754_finite false 4503599627370496 (E + 1)
    else S754_infinity false
  else
    if (E <=? 971)%Z then S754_finite false (Z.to_pos M) E
    else S754_infinity false.

(** The real number that a finite float stands for. *)
Definition fval (x : spec_float) : R :=
  match x with
  | S754_finite s m e => (if s then -1 else 1) * (IZR (Zpos m) * pow2 e)
  | _ => 0
  end.

(** Positive normal numbers in canonical form. *)
Definition normal (x : spec_float) : Prop :=
  exists m e, x = S754_finite false m e /\
    (4503599627370496 <= Zpos m < 9007199254740992)%Z /\
    (-1074 <= e <= 971)%Z.

(** [x] is the correctly rounded value of the real number [v], which lies in
    the range of normal numbers or above it. *)
Definition rounds_to (v : R) (x : spec_float) : Prop :=
  exists M E, in_binade E v /\ (-1074 <= E)%Z /\ rne M E v /\ x = finalize M E.

(** [float(100)] *)
Definition hundred : spec_float := S754_finite false 7036874417766400 (-46).

(** The three floats that [bleed_per_side n c] computes. *)
Definition stage_x (n : Z) : spec_float := binary_normalize prec emax n 0 false.
Definition stage_y (c : spec_float) (n : Z) : spec_float :=
  SFmul prec emax (stage_x n) c.
Definition stage_z (c : spec_float) (n : Z) : spec_float :=
  SFdiv prec emax (stage_y c n) hundred.

End Float64Spec.

(* ================================================================= *)
(** ** Vocabulary of the specification: margins and canvases *)

(** The margins as the specification words them:
    [floor(width * 4.84 / 100)] and [floor(height * 3.47 / 100)], over the
    rationals. *)
Definition calculate_margins (width height : Z) : Z * Z * Z * Z :=
  let horizontal := Qfloor (inject_Z width * 4.84 / inject_Z 100) in
  let vertical := Qfloor (inject_Z height * 3.47 / inject_Z 100) in
  (vertical, vertical, horizontal, horizontal).

Definition clamp (lo hi v : Z) : Z := Z.max lo (Z.min hi v).

(** The working copy of a successfully decoded image: mode ["RGB"], a
    complete buffer and positive dimensions. *)
Definition rgb_image (img : Image) : Prop :=
  wf img /\ mode img = "RGB"%string /\ 1 <= width img /\ 1 <= height img.

(** The rectangles that line 168 and the four blocks write, for a source of
    size [(w, h)]. *)
Section Regions.
Variables (w h top bottom left_ right_ : Z).

Definition in_center (x y : Z) : Prop :=
  left_ <= x < left_ + w /\ top <= y < top + h.
Definition in_top_strip (x y : Z) : Prop :=
  left_ <= x < left_ + w /\ 0 <= y < top.
Definition in_bottom_strip (x y : Z) : Prop :=
  left_ <= x < left_ + w /\ top + h <= y < h + top + bottom.
Definition in_left_strip (x y : Z) : Prop :=
  0 <= x < left_ /\ 0 <= y < h + top + bottom.
Definition in_right_strip (x y : Z) : Prop :=
  left_ + w <= x < w + left_ + right_ /\ 0 <= y < h + top + bottom.

End Regions.

(** How many calls of the loop returned [b]. *)
Definition count (b : bool) (l : list (Path * bool)) : Z :=
  Z.of_nat (count_occ bool_dec (map snd l) b).

(** A 21 x 29 card whose pixels are all different: the smallest size with a
    margin of one pixel on every side. *)
Definition test_card : Image :=
  mkImage "RGB" 21 29 (tabulate 21 29 (fun x y => [x; y; x + y])).

(** The image that [test_add_bleed_border_basic] builds: red, then a blue top
    row and a green bottom row, then a yellow left column and a magenta right
    column. *)
Definition test_image : PyResult Image :=
  let red := mkImage "RGB" 100 140 (tabulate 100 140 (fun _ _ => [255; 0; 0])) in
  let im := Ok red in
  let im :=
    fold_left (fun r x =>
                 im <- r ;;
                 im <- putpixel im (x, 0) [0; 0; 255] ;;
                 putpixel im (x, 139) [0; 255; 0])
              (range 0 100) im in
  fold_left (fun r y =>
               im <- r ;;
               im <- putpixel im (0, y) [255; 255; 0] ;;
               putpixel im (99, y) [255; 0; 255])
            (range 0 140) im.

(** A 3 x 2 image, too small to get a margin. *)
Definition tiny_card : Image :=
  mkImage "RGB" 3 2 (tabulate 3 2 (fun x y => [x; y; 7])).

(** A file system for trying the driver: nothing is stored; the file named
    [corrupt.png] does not decode and every other file is [test_card]. *)
Definition toy_open (fs : unit) (p : Path) : PyResult Image :=
  if String.eqb (path_name p) "corrupt.png" then Raise OSError
  else Ok test_card.
Definition toy_convert (img : Image) (m : string) : PyResult Image := Ok img.
Definition toy_save (fs : unit) (img : Image) (p : Path) : unit * PyResult unit :=
  (tt, Ok tt).

(* ================================================================= *)
(** ** Vocabulary of the further properties *)

(** [x] with its sign replaced by [s]. *)
Definition with_sign (s : bool) (x : spec_float) : spec_float :=
  match x with
  | S754_zero _ => S754_zero s
  | S754_infinity _ => S754_infinity s
  | S754_nan => S754_nan
  | S754_finite _ m e => S754_finite s m e
  end.

(** The opposite of a result, and of the four margins. *)
Definition neg_result (r : PyResult Z) : PyResult Z :=
  match r with Ok k => Ok (- k) | Raise e => Raise e end.

Definition neg_margins (r : PyResult (Z * Z * Z * Z)) : PyResult (Z * Z * Z * Z) :=
  match r with
  | Ok (top, bottom, left_, right_) => Ok (- top, - bottom, - left_, - right_)
  | Raise e => Raise e
  end.

(** Whether a statement completed. *)
Definition completed {A : Type} (r : PyResult A) : bool :=
  match r with Ok _ => true | Raise _ => false end.

(** The canvas of [test_card]: one more row and column on every side. *)
Definition test_card_out : Image :=
  mkImage "RGB" 23 31
    (tabulate 23 31
       (fun x y => [clamp 0 20 (x - 1); clamp 0 28 (y - 1);
                    clamp 0 20 (x - 1) + clamp 0 28 (y - 1)])).

(** An image without rows whose width no [float] holds. *)
Definition huge_strip : Image := mkImage "RGB" (2 ^ 1024) 0 [].

(** The bars that one run of [process_images] shows, in order: line 222
    prints one for each index of [enumerate(image_files, 1)]. *)
Definition progress_frames (image_files : list Path) : list (PyResult PyStr) :=
  let total_files := Z.of_nat (List.length image_files) in
  map (fun i => bar i total_files) (range 1 (total_files + 1)).

(** The extensions without their dot. *)
Definition extension_names : list string :=
  ["jpg"; "jpeg"; "png"; "bmp"; "tiff"; "tif"; "webp"]%string.

Fixpoint has_dot (s : string) : bool :=
  match s with
  | EmptyString => false
  | String c s' => Ascii.eqb c "." || has_dot s'
  end.

(** A line that one round of [get_folder_path] accepts. *)
Definition accepted {FS : Type} (Path_of : PyStr -> Path)
    (path_exists is_dir : FS -> Path -> bool)
    (fs : FS) (must_exist : bool) (line : PyStr) : Prop :=
  path_str line <> [] /\
  (must_exist = true ->
   path_exists fs (Path_of (path_str line)) = true /\
   is_dir fs (Path_of (path_str line)) = true).

(** A file system for trying the prompt: the list of its directories; a path
    is the single component that was typed. *)
Definition toy_Path_of (s : PyStr) : Path :=
  [string_of_list_ascii (map ascii_of_N s)].
Definition toy_exists (fs : list Path) (p : Path) : bool :=
  existsb (fun q => if list_eq_dec string_dec p q then true else false) fs.

(** Three answers: blanks, a quoted path that does not exist, and [/tmp]
    between single quotes with a blank after it. *)
Definition toy_stdin : list PyStr :=
  [[32; 32]; [34; 47; 110; 111; 34]; [39; 47; 116; 109; 112; 39; 32]]%N.

(** Three files for trying the driver. *)
Definition toy_files : list Path :=
  [["in"; "a.png"]; ["in"; "corrupt.png"]; ["in"; "b.png"]]%string.

(* ================================================================= *)
(** * Theory of the binary64 operations *)

Module Float64Facts.

Import Float64 Float64Spec.
Local Open Scope R_scope.

(** ** Powers of two *)

Lemma pow2_pos (e : Z) : 0 < pow2 e.
Proof. apply powerRZ_lt; lra. Qed.

Lemma pow2_add (a b : Z) : pow2 (a + b) = pow2 a * pow2 b.
Proof. apply powerRZ_add; lra. Qed.

Lemma pow2_succ (e : Z) : pow2 (e + 1) = 2 * pow2 e.
Proof. rewrite pow2_add. unfold pow2 at 2. simpl. lra. Qed.

Lemma pow2_IZR (n : Z) : (0 <= n)%Z -> pow2 n = IZR (2 ^ n).
Proof.
  intros H. destruct n as [|p|p]; [reflexivity| |lia].
  unfold pow2; simpl powerRZ.
  rewrite <- (positive_nat_Z p). rewrite <- pow_IZR. reflexivity.
Qed.

Lemma pow2_ge_1 (n : Z) : (0 <= n)%Z -> 1 <= pow2 n.
Proof.
  intros H. rewrite pow2_IZR by assumption. apply IZR_le.
  pose proof (Z.pow_pos_nonneg 2 n). lia.
Qed.

Lemma pow2_le (a b : Z) : (a <= b)%Z -> pow2 a <= pow2 b.
Proof.
  intros H. replace b with (a + (b - a))%Z by lia. rewrite pow2_add.
  pose proof (pow2_pos a).
  pose proof (pow2_ge_1 (b - a) ltac:(lia)). nra.
Qed.

Lemma pow2_lt (a b : Z) : (a < b)%Z -> pow2 a < pow2 b.
Proof.
  intros H. apply Rlt_le_trans with (pow2 (a + 1)).
  - rewrite pow2_succ. pose proof (pow2_pos a). lra.
  - apply pow2_le. lia.
Qed.

Lemma pow2_lt_inv (a b : Z) : pow2 a < pow2 b -> (a < b)%Z.
Proof.
  intros H. destruct (Z_lt_le_dec a b) as [|Hle]; [assumption|].
  apply pow2_le in Hle. lra.
Qed.

(** [digits2_pos] counts binary digits. *)
Lemma digits2_pos_log2 (m : positive) :
  Zpos (digits2_pos m) = (Z.log2 (Zpos m) + 1)%Z.
Proof.
  induction m as [m IH|m IH|]; simpl digits2_pos.
  - rewrite Pos2Z.inj_succ, IH. 
    change (Z.pos m~1) with (2 * Z.pos m + 1)%Z.
    rewrite Z.log2_succ_double by lia. lia.
  - rewrite Pos2Z.inj_succ, IH.
    change (Z.pos m~0) with (2 * Z.pos m)%Z.
    rewrite Z.log2_double by lia. lia.
  - reflexivity.
Qed.

Lemma digits2_pos_bounds (m : positive) :
  pow2 (Zpos (digits2_pos m) - 1) <= IZR (Zpos m) < pow2 (Zpos (digits2_pos m)).
Proof.
  rewrite digits2_pos_log2.
  pose proof (Z.log2_nonneg (Zpos m)) as Hn.
  pose proof (Z.log2_spec (Zpos m) ltac:(lia)) as [Hlo Hhi].
  rewrite !pow2_IZR by lia. split.
  - apply IZR_le. replace (Z.log2 (Z.pos m) + 1 - 1)%Z with (Z.log2 (Z.pos m)) by lia. exact Hlo.
  - apply IZR_lt. exact Hhi.
Qed.

Lemma located_bounds m e l v :
  located m e l v -> IZR m * pow2 e <= v < (IZR m + 1) * pow2 e.
Proof.
  pose proof (pow2_pos e).
  destruct l as [|[| |]]; simpl; intros; nra.
Qed.

Lemma loc_of_shr_record_of_loc m l :
  loc_of_shr_record (shr_record_of_loc m l) = l /\
  shr_m (shr_record_of_loc m l) = m.
Proof. destruct l as [|[| |]]; split; reflexivity. Qed.

Lemma shr_1_denotes mrs e v :
  denotes mrs e v -> denotes (shr_1 mrs) (e + 1) v.
Proof.
  destruct mrs as [m r s]. unfold denotes. simpl shr_m.
  intros [Hm H]. pose proof (pow2_pos e) as Hp.
  pose proof (pow2_succ e) as Hs.
  destruct m as [|p|p]; [| |lia].
  - destruct r, s; simpl in *; rewrite ?Hs; split; try lia; nra.
  - destruct p as [p|p|].
    + assert (IZR (Z.pos p~1) = 2 * IZR (Z.pos p) + 1) as E
        by (rewrite <- mult_IZR, <- plus_IZR; reflexivity).
      destruct r, s; simpl in *; rewrite E in H; rewrite ?Hs;
        split; try lia; nra.
    + assert (IZR (Z.pos p~0) = 2 * IZR (Z.pos p)) as E
        by (rewrite <- mult_IZR; reflexivity).
      destruct r, s; simpl in *; rewrite E in H; rewrite ?Hs;
        split; try lia; nra.
    + destruct r, s; simpl in *; rewrite ?Hs; split; try lia; nra.
Qed.

Lemma iter_pos_denotes (p : positive) : forall mrs e v,
  denotes mrs e v -> denotes (SpecFloat.iter_pos shr_1 p mrs) (e + Zpos p) v.
Proof.
  induction p as [p IH|p IH|]; intros mrs e v H; simpl SpecFloat.iter_pos.
  - replace (e + Z.pos p~1)%Z with (e + 1 + Z.pos p + Z.pos p)%Z by lia.
    apply IH, IH, shr_1_denotes, H.
  - replace (e + Z.pos p~0)%Z with (e + Z.pos p + Z.pos p)%Z by lia.
    apply IH, IH, H.
  - apply shr_1_denotes, H.
Qed.

Lemma shr_denotes mrs e n v :
  denotes mrs e v ->
  denotes (fst (shr mrs e n)) (snd (shr mrs e n)) v /\
  snd (shr mrs e n) = Z.max e (e + n).
Proof.
  intros H. destruct n as [|p|p]; simpl.
  - split; [assumption|lia].
  - split; [apply iter_pos_denotes, H|lia].
  - split; [assumption|lia].
Qed.


(** ** Rounding to nearest, ties to even *)

Lemma fexp_53 (x : Z) : fexp prec emax x = Z.max (x - 53) (-1074).
Proof. reflexivity. Qed.

Lemma in_binade_unique E1 E2 v :
  in_binade E1 v -> in_binade E2 v -> E1 = E2.
Proof.
  intros [L1 U1] [L2 U2].
  assert (E1 + 52 < E2 + 53)%Z by (apply pow2_lt_inv; lra).
  assert (E2 + 52 < E1 + 53)%Z by (apply pow2_lt_inv; lra).
  lia.
Qed.

Lemma in_binade_le E1 E2 v1 v2 :
  in_binade E1 v1 -> in_binade E2 v2 -> v1 <= v2 -> (E1 <= E2)%Z.
Proof.
  intros [L1 U1] [L2 U2] H.
  assert (E1 + 52 < E2 + 53)%Z by (apply pow2_lt_inv; lra).
  lia.
Qed.

Lemma pow2_52 (E : Z) : pow2 (E + 52) = 4503599627370496 * pow2 E.
Proof. rewrite Z.add_comm, pow2_add, (pow2_IZR 52) by lia. reflexivity. Qed.

Lemma pow2_53 (E : Z) : pow2 (E + 53) = 9007199254740992 * pow2 E.
Proof. rewrite Z.add_comm, pow2_add, (pow2_IZR 53) by lia. reflexivity. Qed.

Lemma located_in_binade (p : positive) e l v :
  located (Zpos p) e l v ->
  in_binade (Zpos (digits2_pos p) + e - 53) v.
Proof.
  intros H. apply located_bounds in H.
  pose proof (digits2_pos_bounds p) as [Hlo Hhi].
  pose proof (pow2_pos e) as Hp.
  unfold in_binade.
  replace (Z.pos (digits2_pos p) + e - 53 + 52)%Z
    with ((Z.pos (digits2_pos p) - 1) + e)%Z by lia.
  replace (Z.pos (digits2_pos p) + e - 53 + 53)%Z
    with (Z.pos (digits2_pos p) + e)%Z by lia.
  rewrite !pow2_add.
  assert (IZR (Z.pos p) + 1 <= pow2 (Z.pos (digits2_pos p))).
  { rewrite pow2_IZR by lia. rewrite pow2_IZR in Hhi by lia.
    apply lt_IZR in Hhi. rewrite <- plus_IZR. apply IZR_le. lia. }
  split; nra.
Qed.

Lemma round_nearest_even_rne m l E v :
  (0 <= m)%Z -> located m E l v -> in_binade E v ->
  rne (round_nearest_even m l) E v.
Proof.
  intros Hm H [Hlo Hhi].
  rewrite pow2_52 in Hlo. rewrite pow2_53 in Hhi.
  pose proof (pow2_pos E) as Hp.
  pose proof (located_bounds _ _ _ _ H) as [Hl Hu].
  assert (IZR m < 9007199254740992) as Hm1 by nra.
  assert (4503599627370496 < IZR m + 1) as Hm2 by nra.
  apply lt_IZR in Hm1. rewrite <- plus_IZR in Hm2. apply lt_IZR in Hm2.
  unfold rne.
  destruct l as [|[| |]]; simpl in *.
  - split; [lia|]. split; [nra|]. intros [A|A]; nra.
  - case_eq (Z.even m); intros Hev.
    + split; [lia|]. split; [nra|]. intros _. exact Hev.
    + rewrite plus_IZR. split; [lia|]. split; [nra|]. intros _.
      rewrite Z.even_add, Hev. reflexivity.
  - split; [lia|]. split; [nra|]. intros [A|A]; nra.
  - rewrite plus_IZR. split; [lia|]. split; [nra|]. intros [A|A]; nra.
Qed.

Lemma Zdigits2_53 (M : Z) :
  (4503599627370496 <= M < 9007199254740992)%Z -> Zdigits2 M = 53%Z.
Proof.
  intros H. destruct M as [|q|q]; try lia.
  simpl. rewrite digits2_pos_log2.
  rewrite (Z.log2_unique (Z.pos q) 52); [reflexivity|lia|].
  change (2 ^ 52)%Z with 4503599627370496%Z.
  change (2 ^ Z.succ 52)%Z with 9007199254740992%Z. lia.
Qed.

Lemma finalize_shr_fexp (M E : Z) :
  (4503599627370496 <= M <= 9007199254740992)%Z -> (-1074 <= E)%Z ->
  (let '(mrs, e) := shr_fexp prec emax M E loc_Exact in
   match shr_m mrs with
   | Z0 => S754_zero false
   | Zpos m => if (e <=? emax - prec)%Z then S754_finite false m e
               else S754_infinity false
   | Zneg _ => S754_nan
   end) = finalize M E.
Proof.
  intros HM HE. unfold finalize, shr_fexp.
  destruct (Z.eqb_spec M 9007199254740992) as [->|Hne].
  - rewrite fexp_53. simpl Zdigits2.
    replace (Z.max (54 + E - 53) (-1074) - E)%Z with 1%Z by lia.
    reflexivity.
  - rewrite fexp_53, Zdigits2_53 by lia.
    replace (Z.max (53 + E - 53) (-1074) - E)%Z with 0%Z by lia.
    simpl. destruct M as [|q|q]; try lia. reflexivity.
Qed.

Theorem binary_round_aux_spec (m e : Z) (l : location) (v : R) (E : Z) :
  (0 < m)%Z -> located m e l v -> in_binade E v ->
  (e <= E)%Z -> (-1074 <= E)%Z ->
  exists M, rne M E v /\ binary_round_aux prec emax false m e l = finalize M E.
Proof.
  intros Hm Hloc Hbin HeE HE.
  destruct m as [|p|p]; try lia.
  pose proof (located_in_binade _ _ _ _ Hloc) as Hbin'.
  pose proof (in_binade_unique _ _ _ Hbin' Hbin) as HEeq.
  unfold binary_round_aux.
  unfold shr_fexp at 1. rewrite fexp_53. simpl Zdigits2.
  replace (Z.max (Z.pos (digits2_pos p) + e - 53) (-1074) - e)%Z
    with (E - e)%Z by lia.
  assert (denotes (shr_record_of_loc (Z.pos p) l) e v) as Hden.
  { unfold denotes.
    destruct (loc_of_shr_record_of_loc (Z.pos p) l) as [-> ->].
    split; [lia|assumption]. }
  pose proof (shr_denotes _ _ (E - e) _ Hden) as Hshr.
  destruct (shr (shr_record_of_loc (Z.pos p) l) e (E - e)) as [mrs' e'].
  simpl fst in Hshr; simpl snd in Hshr.
  destruct Hshr as [[Hm' Hloc'] He'].
  assert (e' = E) as -> by lia. clear He'.
  exists (round_nearest_even (shr_m mrs') (loc_of_shr_record mrs')).
  pose proof (round_nearest_even_rne _ _ _ _ Hm' Hloc' Hbin) as Hr.
  split; [exact Hr|].
  apply finalize_shr_fexp; [apply Hr|assumption].
Qed.


(** ** Values of floats *)

Lemma normal_fval x :
  normal x -> exists m e, x = S754_finite false m e /\
    fval x = IZR (Zpos m) * pow2 e /\
    (4503599627370496 <= Zpos m < 9007199254740992)%Z /\
    (-1074 <= e <= 971)%Z /\ in_binade e (fval x).
Proof.
  intros (m & e & -> & Hm & He). exists m, e.
  simpl fval. rewrite Rmult_1_l.
  repeat split; try lia.
  - rewrite pow2_52. pose proof (pow2_pos e).
    assert (4503599627370496 <= IZR (Z.pos m)) by (apply IZR_le; lia). nra.
  - rewrite pow2_53. pose proof (pow2_pos e).
    assert (IZR (Z.pos m) < 9007199254740992) by (apply IZR_lt; lia). nra.
Qed.

Lemma normal_pos x : normal x -> 0 < fval x.
Proof.
  intros H. destruct (normal_fval x H) as (m & e & _ & _ & _ & _ & [Hlo _]).
  pose proof (pow2_pos (e + 52)). lra.
Qed.

Lemma finalize_cases M E v :
  rne M E v -> (-1074 <= E)%Z ->
  (pow2 1024 <= IZR M * pow2 E /\ finalize M E = S754_infinity false) \/
  (IZR M * pow2 E < pow2 1024 /\ normal (finalize M E) /\
   fval (finalize M E) = IZR M * pow2 E).
Proof.
  intros [HM _] HE. unfold finalize. pose proof (pow2_pos E) as Hp.
  destruct (Z.eqb_spec M 9007199254740992) as [->|Hne].
  - rewrite <- pow2_53.
    destruct (Z.leb_spec (E + 1) 971).
    + right. split; [apply pow2_lt; lia|]. split.
      * exists 4503599627370496%positive, (E + 1)%Z. repeat split; lia.
      * simpl fval. rewrite pow2_53, pow2_succ. lra.
    + left. split; [apply pow2_le; lia|reflexivity].
  - assert (4503599627370496 <= IZR M) by (apply IZR_le; lia).
    assert (IZR M <= 9007199254740991) by (apply IZR_le; lia).
    destruct (Z.leb_spec E 971).
    + right. split.
      * apply Rlt_le_trans with (pow2 (E + 53)); [rewrite pow2_53; nra|].
        apply pow2_le; lia.
      * destruct M as [|q|q]; try lia. split.
        -- exists q, E. repeat split; lia.
        -- simpl. lra.
    + left. split; [|reflexivity].
      apply Rle_trans with (pow2 (E + 52)); [apply pow2_le; lia|].
      rewrite pow2_52. nra.
Qed.

Lemma rounds_to_cases v x :
  rounds_to v x -> x = S754_infinity false \/ normal x.
Proof.
  intros (M & E & _ & HE & Hr & ->).
  destruct (finalize_cases M E v Hr HE) as [[_ H]|[_ [H _]]]; auto.
Qed.

Lemma not_normal_infinity s : ~ normal (S754_infinity s).
Proof. intros (m & e & H & _). discriminate. Qed.

(** Rounding is monotone. *)
Lemma rne_mono M1 E1 v1 M2 E2 v2 :
  in_binade E1 v1 -> rne M1 E1 v1 ->
  in_binade E2 v2 -> rne M2 E2 v2 ->
  v1 <= v2 -> IZR M1 * pow2 E1 <= IZR M2 * pow2 E2.
Proof.
  intros B1 (HM1 & Hn1 & Ht1) B2 (HM2 & Hn2 & Ht2) Hv.
  pose proof (in_binade_le _ _ _ _ B1 B2 Hv) as HE.
  destruct (Z.eq_dec E1 E2) as [<-|Hne].
  - pose proof (pow2_pos E1) as Hp.
    destruct (Z_le_gt_dec M1 M2) as [Hle|Hgt].
    + apply IZR_le in Hle. nra.
    + assert (IZR M2 + 1 <= IZR M1) as Hgt'
        by (rewrite <- plus_IZR; apply IZR_le; lia).
      assert (IZR M1 * pow2 E1 = v1 + pow2 E1 / 2) as A1 by nra.
      assert (IZR M2 * pow2 E1 = v2 - pow2 E1 / 2) as A2 by nra.
      assert (IZR M1 = IZR M2 + 1) as A3 by nra.
      rewrite <- plus_IZR in A3. apply eq_IZR in A3.
      pose proof (Ht1 (or_intror A1)) as Ev1.
      pose proof (Ht2 (or_introl A2)) as Ev2.
      subst M1. rewrite Z.even_add, Ev2 in Ev1. discriminate.
  - assert (E1 + 53 <= E2 + 52)%Z as Hlt by lia.
    apply pow2_le in Hlt. rewrite pow2_53, pow2_52 in Hlt.
    pose proof (pow2_pos E1). pose proof (pow2_pos E2).
    assert (IZR M1 <= 9007199254740992) by (apply IZR_le; lia).
    assert (4503599627370496 <= IZR M2) by (apply IZR_le; lia).
    nra.
Qed.

Theorem rounds_to_mono v1 x1 v2 x2 :
  rounds_to v1 x1 -> rounds_to v2 x2 -> v1 <= v2 ->
  normal x2 -> normal x1 /\ fval x1 <= fval x2.
Proof.
  intros (M1 & E1 & B1 & HE1 & R1 & ->) (M2 & E2 & B2 & HE2 & R2 & ->) Hv N2.
  pose proof (rne_mono _ _ _ _ _ _ B1 R1 B2 R2 Hv) as Hle.
  destruct (finalize_cases M2 E2 v2 R2 HE2) as [[_ H2]|(L2 & _ & V2)].
  { rewrite H2 in N2. destruct (not_normal_infinity _ N2). }
  destruct (finalize_cases M1 E1 v1 R1 HE1) as [[L1 _]|(L1 & N1 & V1)].
  { lra. }
  split; [assumption|]. rewrite V1, V2. exact Hle.
Qed.

(** The relative error of a rounding is at most [2^-53]. *)
Theorem rounds_to_error v x :
  rounds_to v x -> normal x ->
  v - v / 9007199254740992 <= fval x <= v + v / 9007199254740992.
Proof.
  intros (M & E & [Blo Bhi] & HE & R & ->) N.
  destruct (finalize_cases M E v R HE) as [[_ H]|(_ & _ & V)].
  { rewrite H in N. destruct (not_normal_infinity _ N). }
  rewrite V. destruct R as (_ & Hn & _).
  rewrite pow2_52 in Blo. pose proof (pow2_pos E). lra.
Qed.

(** A real number that is close enough to an integer below [2^53] rounds to
    that integer. *)
Theorem rounds_to_near_int v x (k : Z) :
  rounds_to v x -> pow2 (-1022) <= v -> v < 9007199254740992 ->
  - (v / 18014398509481984) < IZR k - v < v / 18014398509481984 ->
  normal x /\ fval x = IZR k.
Proof.
  intros (M & E & [Blo Bhi] & HE & R & ->) Hlow Hv Hk.
  pose proof (pow2_pos E) as Hp.
  assert (E <= 0)%Z as HE0.
  { assert (E + 52 < 53)%Z; [|lia].
    apply pow2_lt_inv. rewrite (pow2_IZR 53) by lia.
    change (IZR (2 ^ 53)) with 9007199254740992. lra. }
  assert (IZR k = IZR (k * 2 ^ (- E)) * pow2 E) as Hrep.
  { rewrite mult_IZR, <- pow2_IZR by lia.
    rewrite Rmult_assoc, <- pow2_add.
    replace (- E + E)%Z with 0%Z by lia. unfold pow2; simpl. lra. }
  assert (M = k * 2 ^ (- E))%Z as HM.
  { destruct R as (_ & Hn & _).
    rewrite pow2_53 in Bhi.
    set (K := (k * 2 ^ (- E))%Z) in *.
    assert (IZR M < IZR K + 1) as A1 by nra.
    assert (IZR K < IZR M + 1) as A2 by nra.
    rewrite <- plus_IZR in A1, A2. apply lt_IZR in A1, A2. lia. }
  destruct (finalize_cases M E v R HE) as [[L _]|(_ & N & V)].
  - exfalso. rewrite HM, <- Hrep in L.
    assert (pow2 54 <= pow2 1024) by (apply pow2_le; lia).
    rewrite (pow2_IZR 54) in H by lia.
    change (IZR (2 ^ 54)) with 18014398509481984 in H. lra.
  - split; [assumption|]. rewrite V, HM, <- Hrep. reflexivity.
Qed.


(** ** The operations of the margin calculator *)

Lemma binary_round_aux_rounds_to (m e : Z) (l : location) (v : R) :
  (0 < m)%Z -> located m e l v ->
  pow2 (e + 52) <= v -> pow2 (-1022) <= v ->
  rounds_to v (binary_round_aux prec emax false m e l).
Proof.
  intros Hm Hloc Hlo Hmin.
  destruct m as [|p|p]; try lia.
  pose proof (located_in_binade _ _ _ _ Hloc) as Hbin.
  set (E := (Z.pos (digits2_pos p) + e - 53)%Z) in *.
  assert (e <= E)%Z as HeE.
  { assert (e + 52 < E + 53)%Z; [|lia].
    apply pow2_lt_inv. destruct Hbin. lra. }
  assert (-1074 <= E)%Z as HE.
  { assert (-1022 < E + 53)%Z; [|lia].
    apply pow2_lt_inv. destruct Hbin. lra. }
  destruct (binary_round_aux_spec _ _ _ _ _ Hm Hloc Hbin HeE HE) as (M & R & Heq).
  exists M, E. auto.
Qed.

Lemma iter_xO (d : positive) (m : positive) :
  Zpos (Pos.iter xO m d) = (Zpos m * 2 ^ Zpos d)%Z.
Proof.
  induction d as [|d IH] using Pos.peano_ind.
  - simpl. lia.
  - rewrite Pos.iter_succ, Pos2Z.inj_xO, IH, Pos2Z.inj_succ, Z.pow_succ_r by lia.
    lia.
Qed.

Lemma shl_align_spec (mx : positive) (ex ex' : Z) :
  IZR (Zpos (fst (shl_align mx ex ex'))) * pow2 (snd (shl_align mx ex ex'))
  = IZR (Zpos mx) * pow2 ex /\
  snd (shl_align mx ex ex') = Z.min ex ex'.
Proof.
  unfold shl_align.
  destruct (ex' - ex)%Z as [|d|d] eqn:Hd; simpl fst; simpl snd.
  - split; [reflexivity|lia].
  - split; [reflexivity|lia].
  - split; [|lia].
    rewrite iter_xO, mult_IZR, <- pow2_IZR by lia.
    rewrite Rmult_assoc, <- pow2_add.
    replace (Z.pos d + ex')%Z with ex by lia. reflexivity.
Qed.

(** [float(n)] is the rounding of [n]. *)
Theorem binary_normalize_rounds_to (n : Z) :
  (1 <= n)%Z -> rounds_to (IZR n) (binary_normalize prec emax n 0 false).
Proof.
  intros Hn. destruct n as [|p|p]; try lia.
  unfold binary_normalize, binary_round.
  pose proof (shl_align_spec p 0 (fexp prec emax (Z.pos (digits2_pos p) + 0)))
    as [Hval Hexp].
  destruct (shl_align p 0 (fexp prec emax (Z.pos (digits2_pos p) + 0)))
    as [mz ez].
  simpl fst in *; simpl snd in *.
  rewrite fexp_53 in Hexp.
  assert (IZR (Z.pos p) = IZR (Z.pos mz) * pow2 ez) as Hv.
  { rewrite Hval. unfold pow2; simpl. lra. }
  pose proof (digits2_pos_bounds p) as [Hlo _].
  assert (1 <= IZR (Z.pos p)) as H1 by (apply IZR_le; lia).
  apply binary_round_aux_rounds_to.
  - lia.
  - exact Hv.
  - apply Rle_trans with (pow2 (Z.pos (digits2_pos p) - 1)); [|exact Hlo].
    apply pow2_le. lia.
  - apply Rle_trans with (pow2 0); [apply pow2_le; lia|].
    unfold pow2 at 1; simpl. exact H1.
Qed.

(** [x * y] is the rounding of the product of the values. *)
Theorem SFmul_rounds_to (x y : spec_float) :
  normal x -> normal y -> pow2 (-1022) <= fval x * fval y ->
  rounds_to (fval x * fval y) (SFmul prec emax x y).
Proof.
  intros Nx Ny Hmin.
  destruct (normal_fval x Nx) as (mx & ex & -> & Vx & Hmx & Hex & [Bx _]).
  destruct (normal_fval y Ny) as (my & ey & -> & Vy & Hmy & Hey & [By _]).
  rewrite Vx, Vy in *. simpl SFmul.
  rewrite <- Vx in Bx. rewrite <- Vy in By. rewrite Vx in Bx. rewrite Vy in By.
  pose proof (pow2_pos ex). pose proof (pow2_pos ey).
  rewrite pow2_52 in Bx, By.
  apply binary_round_aux_rounds_to.
  - lia.
  - simpl located. rewrite Pos2Z.inj_mul, mult_IZR, pow2_add. ring.
  - rewrite pow2_52, pow2_add. nra.
  - exact Hmin.
Qed.

Lemma new_location_located (q m2 r e : Z) :
  (0 < m2)%Z -> (0 <= r < m2)%Z ->
  located q e (new_location m2 r) ((IZR q + IZR r / IZR m2) * pow2 e).
Proof.
  intros Hm2 Hr. pose proof (pow2_pos e) as Hp.
  assert (0 < IZR m2) as Hm2' by (apply IZR_lt; lia).
  assert (0 <= IZR r) as Hr0 by (apply IZR_le; lia).
  assert (IZR r < IZR m2) as Hr1 by (apply IZR_lt; lia).
  assert (forall a b : R, a * IZR m2 < b * IZR m2 -> a < b) as cancel
    by (intros; nra).
  assert (IZR r / IZR m2 * IZR m2 = IZR r) as Hdiv by (field; lra).
  unfold new_location, new_location_even, new_location_odd.
  destruct (Z.even m2) eqn:Hev; destruct (Z.eqb_spec r 0) as [->|Hne].
  - simpl. unfold Rdiv. lra.
  - assert (0 < IZR r) by (apply IZR_lt; lia).
    assert (0 < IZR r / IZR m2) by (apply Rdiv_lt_0_compat; lra).
    assert (IZR r / IZR m2 < 1) by (apply cancel; lra).
    destruct (Z.compare_spec (2 * r) m2) as [Heq|Hlt|Hgt]; simpl.
    + assert (IZR r / IZR m2 = / 2) as ->.
      { rewrite <- Heq, mult_IZR. field. lra. }
      reflexivity.
    + assert (IZR r / IZR m2 < / 2).
      { apply cancel. apply IZR_lt in Hlt. rewrite mult_IZR in Hlt. lra. }
      split; nra.
    + assert (/ 2 < IZR r / IZR m2).
      { apply cancel. apply IZR_lt in Hgt. rewrite mult_IZR in Hgt. lra. }
      split; nra.
  - simpl. unfold Rdiv. lra.
  - assert (0 < IZR r) by (apply IZR_lt; lia).
    assert (0 < IZR r / IZR m2) by (apply Rdiv_lt_0_compat; lra).
    assert (IZR r / IZR m2 < 1) by (apply cancel; lra).
    assert (2 * r <> m2)%Z as Hodd.
    { intros <-. rewrite Z.even_mul in Hev. discriminate. }
    destruct (Z.compare_spec (2 * r + 1) m2) as [Heq|Hlt|Hgt]; simpl.
    + assert (IZR r / IZR m2 < / 2).
      { apply cancel. assert (2 * r < m2)%Z as Hlt' by lia.
        apply IZR_lt in Hlt'. rewrite mult_IZR in Hlt'. lra. }
      split; nra.
    + assert (IZR r / IZR m2 < / 2).
      { apply cancel. apply IZR_lt in Hlt. rewrite plus_IZR, mult_IZR in Hlt. lra. }
      split; nra.
    + assert (/ 2 < IZR r / IZR m2).
      { apply cancel. assert (m2 < 2 * r)%Z as Hgt' by lia.
        apply IZR_lt in Hgt'. rewrite mult_IZR in Hgt'. lra. }
      split; nra.
Qed.


(** [x / y] is the rounding of the quotient of the values. *)
Theorem SFdiv_rounds_to (x y : spec_float) :
  normal x -> normal y -> pow2 (-1022) <= fval x / fval y ->
  rounds_to (fval x / fval y) (SFdiv prec emax x y).
Proof.
  intros Nx Ny Hmin.
  destruct (normal_fval x Nx) as (mx & ex & -> & Vx & Hmx & Hex & _).
  destruct (normal_fval y Ny) as (my & ey & -> & Vy & Hmy & Hey & _).
  rewrite Vx, Vy in *. clear Vx Vy. simpl SFdiv.
  unfold SFdiv_core_binary.
  change IntDef.Z.min with Z.min. change IntDef.Z.div_eucl with Z.div_eucl.
  rewrite !Zdigits2_53, fexp_53 by lia.
  pose proof (pow2_pos ex) as Hpx. pose proof (pow2_pos ey) as Hpy.
  assert (4503599627370496 <= IZR (Z.pos mx) < 9007199254740992) as Hmx'
    by (split; [apply IZR_le|apply IZR_lt]; lia).
  assert (4503599627370496 <= IZR (Z.pos my) < 9007199254740992) as Hmy'
    by (split; [apply IZR_le|apply IZR_lt]; lia).
  pose (a := (ex - ey)%Z).
  set (v := IZR (Z.pos mx) * pow2 ex / (IZR (Z.pos my) * pow2 ey)) in *.
  assert (v = IZR (Z.pos mx) / IZR (Z.pos my) * pow2 a) as Hv.
  { unfold v, a. replace ex with ((ex - ey) + ey)%Z at 1 by lia.
    rewrite pow2_add. field. split; lra. }
  pose proof (pow2_pos a) as Hpa.
  assert (/ 2 < IZR (Z.pos mx) / IZR (Z.pos my) < 2) as Hratio.
  { split.
    - apply Rmult_lt_reg_r with (IZR (Z.pos my)); [lra|].
      unfold Rdiv. rewrite Rmult_assoc, Rinv_l by lra. lra.
    - apply Rmult_lt_reg_r with (IZR (Z.pos my)); [lra|].
      unfold Rdiv. rewrite Rmult_assoc, Rinv_l by lra. lra. }
  assert (-1022 <= a)%Z as Ha.
  { assert (-1022 < a + 1)%Z; [|lia]. apply pow2_lt_inv.
    rewrite pow2_succ. nra. }
  set (e' := Z.min (Z.max (53 + ex - (53 + ey) - 53) (-1074)) (ex - ey)).
  assert (e' = Z.max (a - 53) (-1074)) as He' by (unfold e', a; lia).
  assert (pow2 (e' + 52) <= v) as Hlo.
  { rewrite He'. destruct (Z.max_spec (a - 53) (-1074)) as [[_ ->]|[_ ->]].
    - exact Hmin.
    - replace (a - 53 + 52)%Z with (a - 1)%Z by lia.
      assert (pow2 a = 2 * pow2 (a - 1)) as Ea.
      { rewrite <- pow2_succ. f_equal. lia. }
      nra. }
  assert (52 <= ex - ey - e')%Z as Hs by (unfold a in *; lia).
  destruct (ex - ey - e')%Z as [|s|s] eqn:Es; try lia.
  rewrite Z.shiftl_mul_pow2 by lia.
  pose proof (Z_div_mod (Z.pos mx * 2 ^ Z.pos s) (Z.pos my) ltac:(lia)) as Hdm.
  destruct (Z.div_eucl (Z.pos mx * 2 ^ Z.pos s) (Z.pos my)) as [q r].
  destruct Hdm as [Hdm Hr].
  assert (4503599627370496 <= 2 ^ Z.pos s)%Z as Hpow.
  { change 4503599627370496%Z with (2 ^ 52)%Z.
    apply Z.pow_le_mono_r; lia. }
  assert (0 < q)%Z as Hq by nia.
  assert (v = (IZR q + IZR r / IZR (Z.pos my)) * pow2 e') as Hv'.
  { rewrite Hv.
    assert (pow2 a = IZR (2 ^ Z.pos s) * pow2 e') as ->.
    { rewrite <- pow2_IZR, <- pow2_add by lia. f_equal. unfold a. lia. }
    apply (f_equal IZR) in Hdm. rewrite plus_IZR, !mult_IZR in Hdm.
    rewrite Rmult_plus_distr_r.
    apply Rmult_eq_reg_r with (IZR (Z.pos my)); [|lra].
    field_simplify; [|lra|lra]. rewrite Hdm. field. }
  apply binary_round_aux_rounds_to.
  - exact Hq.
  - rewrite Hv'. apply new_location_located; lia.
  - exact Hlo.
  - exact Hmin.
Qed.

(** [int(x)] is the integer part of the value. *)
Theorem to_int_floor (x : spec_float) :
  normal x -> exists k, to_int x = Ok k /\ IZR k <= fval x < IZR k + 1.
Proof.
  intros N. destruct (normal_fval x N) as (m & e & -> & -> & Hm & He & _).
  simpl to_int. eexists; split; [reflexivity|].
  destruct (Z_le_gt_dec 0 e) as [Hpos|Hneg].
  - rewrite Z.shiftl_mul_pow2 by lia.
    rewrite mult_IZR, <- pow2_IZR by lia. lra.
  - rewrite Z.shiftl_div_pow2 by lia.
    assert (0 < 2 ^ (- e))%Z as Hd by (apply Z.pow_pos_nonneg; lia).
    pose proof (Z.div_mod (Z.pos m) (2 ^ (- e)) ltac:(lia)) as Hdm.
    pose proof (Z.mod_pos_bound (Z.pos m) (2 ^ (- e)) Hd) as Hr.
    set (q := (Z.pos m / 2 ^ (- e))%Z) in *.
    set (r := (Z.pos m mod 2 ^ (- e))%Z) in *.
    assert (pow2 e * IZR (2 ^ (- e)) = 1) as Hinv.
    { rewrite <- pow2_IZR, <- pow2_add by lia.
      replace (e + - e)%Z with 0%Z by lia. reflexivity. }
    rewrite Hdm, plus_IZR, mult_IZR.
    assert (0 <= IZR r) by (apply IZR_le; lia).
    assert (IZR r < IZR (2 ^ (- e))) by (apply IZR_lt; lia).
    pose proof (pow2_pos e).
    assert (0 <= IZR r * pow2 e) by nra.
    assert (IZR r * pow2 e < 1) by nra.
    replace ((IZR (2 ^ (- e)) * IZR q + IZR r) * pow2 e)
      with (IZR q * (pow2 e * IZR (2 ^ (- e))) + IZR r * pow2 e) by ring.
    rewrite Hinv. lra.
Qed.


(** ** The pipeline [int((n * percent) / 100)] *)

Lemma pow2_neg (n : Z) : (0 <= n)%Z -> pow2 (- n) * IZR (2 ^ n) = 1.
Proof.
  intros H. rewrite <- pow2_IZR, <- pow2_add by lia.
  replace (- n + n)%Z with 0%Z by lia. reflexivity.
Qed.

Lemma of_int_100 : of_int 100 = Ok hundred.
Proof. reflexivity. Qed.

Lemma normal_hundred : normal hundred.
Proof. exists 7036874417766400%positive, (-46)%Z. repeat split; lia. Qed.

Lemma fval_hundred : fval hundred = 100.
Proof.
  cbv beta iota delta [hundred fval].
  pose proof (pow2_neg 46 ltac:(lia)) as H.
  change (IZR (2 ^ 46)) with 70368744177664 in H.
  simpl Z.opp in H. lra.
Qed.

Lemma rounds_to_normal v x :
  rounds_to v x -> v <= pow2 1023 -> normal x.
Proof.
  intros H Hv.
  assert (rounds_to (pow2 1023) (S754_finite false 4503599627370496 971)) as Htop.
  { exists 4503599627370496%Z, 971%Z. split; [|split; [lia|split]].
    - split; [apply pow2_le; lia|apply pow2_lt; lia].
    - pose proof (pow2_52 971) as E. simpl Z.add in E.
      pose proof (pow2_pos 971).
      split; [lia|]. split; [lra|]. intros _. reflexivity.
    - reflexivity. }
  apply (rounds_to_mono _ _ _ _ H Htop Hv).
  exists 4503599627370496%positive, 971%Z. repeat split; lia.
Qed.

Lemma rounds_to_exact_int (k : Z) x :
  rounds_to (IZR k) x -> (1 <= k < 9007199254740992)%Z ->
  normal x /\ fval x = IZR k.
Proof.
  intros H Hk.
  assert (1 <= IZR k) by (apply IZR_le; lia).
  assert (IZR k < 9007199254740992) by (apply IZR_lt; lia).
  apply (rounds_to_near_int (IZR k)); try assumption.
  - apply Rle_trans with (pow2 0); [apply pow2_le; lia|].
    unfold pow2; simpl; lra.
  - lra.
Qed.

Lemma rounds_to_ge_int v x (k : Z) :
  rounds_to v x -> normal x -> (1 <= k < 9007199254740992)%Z ->
  IZR k <= v -> IZR k <= fval x.
Proof.
  intros H N Hk Hv.
  pose proof (binary_normalize_rounds_to k ltac:(lia)) as Hk'.
  destruct (rounds_to_exact_int _ _ Hk' Hk) as [_ <-].
  apply (rounds_to_mono _ _ _ _ Hk' H Hv N).
Qed.

Section Pipeline.

Variable c : spec_float.
Hypothesis c_normal : normal c.
Hypothesis c_range : 1 <= fval c <= 100.

Lemma pow2_m1022_small : pow2 (-1022) <= / 1024.
Proof.
  apply Rle_trans with (pow2 (-10)); [apply pow2_le; lia|].
  pose proof (pow2_neg 10 ltac:(lia)) as H.
  change (IZR (2 ^ 10)) with 1024 in H. simpl Z.opp in H.
  pose proof (pow2_pos (-10)). nra.
Qed.

Lemma stage_x_rounds n : (1 <= n)%Z -> rounds_to (IZR n) (stage_x n).
Proof. apply binary_normalize_rounds_to. Qed.

Lemma stage_x_lower n :
  (1 <= n)%Z -> normal (stage_x n) -> 1 <= fval (stage_x n).
Proof.
  intros Hn N.
  apply (rounds_to_ge_int (IZR n) _ 1 (stage_x_rounds n Hn) N); [lia|].
  apply IZR_le. lia.
Qed.

Lemma stage_y_rounds n :
  (1 <= n)%Z -> normal (stage_x n) ->
  rounds_to (fval (stage_x n) * fval c) (stage_y c n).
Proof.
  intros Hn N. apply SFmul_rounds_to; try assumption.
  pose proof (stage_x_lower n Hn N). pose proof pow2_m1022_small. nra.
Qed.

Lemma stage_y_lower n :
  (1 <= n)%Z -> normal (stage_x n) -> normal (stage_y c n) ->
  1 <= fval (stage_y c n).
Proof.
  intros Hn Nx Ny.
  apply (rounds_to_ge_int _ _ 1 (stage_y_rounds n Hn Nx) Ny); [lia|].
  pose proof (stage_x_lower n Hn Nx). nra.
Qed.

Lemma stage_z_rounds n :
  (1 <= n)%Z -> normal (stage_x n) -> normal (stage_y c n) ->
  rounds_to (fval (stage_y c n) / 100) (stage_z c n) /\ normal (stage_z c n).
Proof.
  intros Hn Nx Ny.
  pose proof (stage_y_lower n Hn Nx Ny) as Hlo.
  assert (rounds_to (fval (stage_y c n) / 100) (stage_z c n)) as H.
  { rewrite <- fval_hundred. apply SFdiv_rounds_to; try assumption.
    - apply normal_hundred.
    - rewrite fval_hundred. pose proof pow2_m1022_small. lra. }
  split; [exact H|].
  apply (rounds_to_normal _ _ H).
  destruct (normal_fval _ Ny) as (m & e & _ & -> & Hm & He & _).
  assert (IZR (Z.pos m) < 9007199254740992) by (apply IZR_lt; lia).
  assert (pow2 e <= pow2 971) by (apply pow2_le; lia).
  pose proof (pow2_52 971) as E. simpl Z.add in E.
  pose proof (pow2_pos e). nra.
Qed.

(** How the pipeline runs, according to the floats of its stages. *)
Lemma bleed_per_side_unfold n :
  bleed_per_side n c =
  match stage_x n with
  | S754_infinity _ => Raise OverflowError
  | _ => to_int (stage_z c n)
  end.
Proof.
  unfold bleed_per_side, stage_z, stage_y, stage_x, mul. unfold of_int at 1.
  destruct (binary_normalize prec emax n 0 false); reflexivity.
Qed.

(** How the pipeline runs, according to the floats of its stages. *)
Lemma bleed_per_side_run n :
  (1 <= n)%Z ->
  (stage_x n = S754_infinity false /\
   bleed_per_side n c = Raise OverflowError) \/
  (normal (stage_x n) /\ stage_y c n = S754_infinity false /\
   bleed_per_side n c = Raise OverflowError) \/
  (normal (stage_x n) /\ normal (stage_y c n) /\ normal (stage_z c n) /\
   bleed_per_side n c = to_int (stage_z c n)).
Proof.
  intros Hn. rewrite bleed_per_side_unfold.
  destruct (rounds_to_cases _ _ (stage_x_rounds n Hn)) as [Hx|Nx].
  { left. rewrite Hx. auto. }
  right.
  assert (match stage_x n with
          | S754_infinity _ => Raise OverflowError
          | _ => to_int (stage_z c n) end = to_int (stage_z c n)) as ->.
  { destruct Nx as (m & e & -> & _). reflexivity. }
  destruct (rounds_to_cases _ _ (stage_y_rounds n Hn Nx)) as [Hy|Ny].
  { left. unfold stage_z. rewrite Hy. auto. }
  right. destruct (stage_z_rounds n Hn Nx Ny) as [_ Nz].
  repeat split; try assumption.
Qed.

Lemma bleed_per_side_normal n :
  normal (stage_x n) -> bleed_per_side n c = to_int (stage_z c n).
Proof.
  intros (m & e & Hx & _). rewrite bleed_per_side_unfold, Hx. reflexivity.
Qed.

Lemma bleed_per_side_Ok n k :
  (1 <= n)%Z -> bleed_per_side n c = Ok k ->
  normal (stage_x n) /\ normal (stage_y c n) /\ normal (stage_z c n) /\
  IZR k <= fval (stage_z c n) < IZR k + 1.
Proof.
  intros Hn Hk.
  destruct (bleed_per_side_run n Hn)
    as [[_ H]|[(_ & _ & H)|(Nx & Ny & Nz & H)]];
    try (rewrite H in Hk; discriminate).
  repeat split; try assumption;
    destruct (to_int_floor _ Nz) as (k0 & Hk0 & Hfl);
    rewrite H, Hk0 in Hk; injection Hk as <-; apply Hfl.
Qed.

(** The pipeline is monotone, and where it returns for [n'] it returns for
    every smaller positive [n]. *)
Theorem bleed_per_side_mono n n' k' :
  (1 <= n <= n')%Z -> bleed_per_side n' c = Ok k' ->
  exists k, bleed_per_side n c = Ok k /\ (0 <= k <= k')%Z.
Proof.
  intros Hn Hk'.
  destruct (bleed_per_side_Ok n' k' ltac:(lia) Hk') as (Nx' & Ny' & Nz' & Hfl').
  assert (IZR n <= IZR n') as Hle by (apply IZR_le; lia).
  destruct (rounds_to_mono _ _ _ _ (stage_x_rounds n ltac:(lia))
              (stage_x_rounds n' ltac:(lia)) Hle Nx') as [Nx Hx].
  assert (fval (stage_x n) * fval c <= fval (stage_x n') * fval c) as Hle1
    by (apply Rmult_le_compat_r; lra).
  destruct (rounds_to_mono _ _ _ _ (stage_y_rounds n ltac:(lia) Nx)
              (stage_y_rounds n' ltac:(lia) Nx') Hle1 Ny') as [Ny Hy].
  assert (fval (stage_y c n) / 100 <= fval (stage_y c n') / 100) as Hle2 by lra.
  destruct (stage_z_rounds n ltac:(lia) Nx Ny) as [Rz Nz].
  destruct (stage_z_rounds n' ltac:(lia) Nx' Ny') as [Rz' _].
  destruct (rounds_to_mono _ _ _ _ Rz Rz' Hle2 Nz') as [_ Hz].
  destruct (to_int_floor _ Nz) as (k & Hk & Hfl).
  exists k. rewrite (bleed_per_side_normal n Nx). split; [exact Hk|].
  pose proof (normal_pos _ Nz) as Hpos.
  assert (IZR k < IZR k' + 1) as A by lra.
  assert (0 < IZR k + 1) as B by lra.
  rewrite <- plus_IZR in A, B. apply lt_IZR in A, B. lia.
Qed.

(** The pipeline returns on every positive integer below [2^1000]. *)
Theorem bleed_per_side_returns n :
  (1 <= n < 2 ^ 1000)%Z -> exists k, bleed_per_side n c = Ok k.
Proof.
  intros Hn.
  assert (1 <= IZR n) as Hn1 by (apply IZR_le; lia).
  assert (IZR n < pow2 1000) as Hn2
    by (rewrite pow2_IZR by lia; apply IZR_lt; lia).
  assert (pow2 1001 = 2 * pow2 1000) as E1 by (rewrite <- pow2_succ; reflexivity).
  assert (pow2 1008 = 128 * pow2 1001) as E2.
  { change 1008%Z with (7 + 1001)%Z. rewrite pow2_add, (pow2_IZR 7) by lia.
    reflexivity. }
  assert (pow2 1008 <= pow2 1023) as E3 by (apply pow2_le; lia).
  pose proof (pow2_pos 1000) as Hp.
  pose proof (stage_x_rounds n ltac:(lia)) as Rx.
  assert (normal (stage_x n)) as Nx by (apply (rounds_to_normal _ _ Rx); lra).
  pose proof (rounds_to_error _ _ Rx Nx) as Ex.
  pose proof (stage_y_rounds n ltac:(lia) Nx) as Ry.
  assert (normal (stage_y c n)) as Ny.
  { apply (rounds_to_normal _ _ Ry).
    apply Rle_trans with (pow2 1001 * 100); [|lra].
    apply Rmult_le_compat; lra. }
  destruct (stage_z_rounds n ltac:(lia) Nx Ny) as [_ Nz].
  destruct (to_int_floor _ Nz) as (k & Hk & _).
  exists k. rewrite (bleed_per_side_normal n Nx). exact Hk.
Qed.

End Pipeline.


(** ** Agreement with the decimal percentage on dimensions below [2^42] *)

Section Exact.

(** [c] is the binary64 literal written [N/100] in the source. *)
Variable c : spec_float.
Variable N : Z.
Hypothesis c_normal : normal c.
Hypothesis N_range : (101 <= N <= 500)%Z.
Hypothesis c_close :
  - (fval c / 9007199254740992) <= fval c - IZR N / 100
    <= fval c / 9007199254740992.
Hypothesis c_side :
  IZR N / 100 <= fval c \/
  - (fval c / 18014398509481984) < IZR N / 100 - fval c
    < fval c / 18014398509481984.

Lemma c_range_exact : 1 <= fval c <= 100.
Proof.
  assert (101 <= IZR N) by (apply IZR_le; lia).
  assert (IZR N <= 500) by (apply IZR_le; lia).
  lra.
Qed.

Theorem bleed_per_side_exact (n : Z) :
  (1 <= n < 4398046511104)%Z ->
  bleed_per_side n c = Ok (n * N / 10000)%Z.
Proof.
  intros Hn.
  pose proof c_range_exact as Hc.
  assert (101 <= IZR N) as HN1 by (apply IZR_le; lia).
  assert (IZR N <= 500) as HN2 by (apply IZR_le; lia).
  assert (1 <= IZR n) as HA1 by (apply IZR_le; lia).
  assert (IZR n < 4398046511104) as HA2 by (apply IZR_lt; lia).
  set (A := IZR n) in *.
  (* float(n) is exact *)
  destruct (rounds_to_exact_int n _ (stage_x_rounds n ltac:(lia)) ltac:(lia))
    as [Nx Vx]. fold A in Vx.
  (* the product *)
  pose proof (stage_y_rounds c c_normal Hc n ltac:(lia) Nx) as Ry.
  rewrite Vx in Ry.
  assert (A * fval c <= 439804651110400) as Hv1 by nra.
  assert (normal (stage_y c n)) as Ny.
  { apply (rounds_to_normal _ _ Ry).
    apply Rle_trans with (pow2 52); [|apply pow2_le; lia].
    rewrite (pow2_IZR 52) by lia.
    change (IZR (2 ^ 52)) with 4503599627370496. lra. }
  pose proof (rounds_to_error _ _ Ry Ny) as Ey.
  (* the quotient *)
  destruct (stage_z_rounds c c_normal Hc n ltac:(lia) Nx Ny) as [Rz Nz].
  pose proof (rounds_to_error _ _ Rz Nz) as Ez.
  destruct (to_int_floor _ Nz) as (k0 & Hk0 & Hfl).
  rewrite (bleed_per_side_normal c n Nx), Hk0. f_equal.
  (* the decimal value *)
  pose proof (Z.div_mod (n * N) 10000 ltac:(lia)) as Hdm.
  pose proof (Z.mod_pos_bound (n * N) 10000 ltac:(lia)) as Hrem.
  set (k := (n * N / 10000)%Z) in *.
  set (rem := ((n * N) mod 10000)%Z) in *.
  assert (A * IZR N = 10000 * IZR k + IZR rem) as HP.
  { unfold A. rewrite <- mult_IZR, Hdm, plus_IZR, mult_IZR. reflexivity. }
  assert (0 <= IZR rem <= 9999) as Hrem'
    by (split; apply IZR_le; lia).
  set (v1 := A * fval c) in *.
  set (P := A * IZR N / 100).
  assert (100 * P = 10000 * IZR k + IZR rem) as HP' by (unfold P; lra).
  assert (P <= 21990232555520) as HPmax by (unfold P; nra).
  assert (0 <= IZR k) as Hk by (apply IZR_le; unfold k; apply Z.div_pos; nia).
  assert (- (v1 / 9007199254740992) <= v1 - P <= v1 / 9007199254740992)
    as Hclose.
  { unfold v1, P. destruct c_close as [L U]. split.
    - apply Rmult_le_compat_l with (r := A) in L; [|lra]. lra.
    - apply Rmult_le_compat_l with (r := A) in U; [|lra]. lra. }
  set (y := fval (stage_y c n)) in *.
  set (z := fval (stage_z c n)) in *.
  assert (z < IZR k + 1) as Hup by lra.
  assert (IZR k <= z) as Hlow.
  { destruct (Z.eq_dec rem 0) as [H0|Hne].
    - rewrite H0 in HP'. 
      assert (1 <= k)%Z as Hk1.
      { assert (0 < IZR k) as Hkpos by (unfold P in HP'; nra).
        apply lt_IZR in Hkpos. lia. }
      assert (IZR k < 90071992547409) as Hk2 by lra.
      apply lt_IZR in Hk2.
      assert (100 * IZR k <= y) as Hy.
      { change 100 with (IZR 100). rewrite <- mult_IZR.
        destruct c_side as [Hge|Hnear].
        - apply (rounds_to_ge_int _ _ (100 * k) Ry Ny); [lia|].
          rewrite mult_IZR. unfold v1.
          apply Rmult_le_compat_l with (r := A) in Hge; [|lra].
          unfold P in HP'. lra.
        - destruct (rounds_to_near_int v1 _ (100 * k) Ry) as [_ Vy].
          + apply Rle_trans with (/ 1024); [apply pow2_m1022_small|].
            unfold v1. nra.
          + lra.
          + rewrite mult_IZR. destruct Hnear as [L U].
            apply Rmult_lt_compat_l with (r := A) in L; [|lra].
            apply Rmult_lt_compat_l with (r := A) in U; [|lra].
            unfold v1. unfold P in HP'. lra.
          + fold y in Vy. rewrite Vy. lra. }
      apply (rounds_to_ge_int _ _ k Rz Nz); [lia|]. fold y. lra.
    - assert (1 <= IZR rem) by (apply IZR_le; lia).
      lra. }
  assert (IZR k0 < IZR k + 1) as A1 by lra.
  assert (IZR k < IZR k0 + 1) as A2 by lra.
  rewrite <- plus_IZR in A1, A2. apply lt_IZR in A1, A2. lia.
Qed.

End Exact.


(** ** The two percentages *)

Lemma normal_lit_4_84 : normal lit_4_84.
Proof. exists 5449355549118300%positive, (-50)%Z. repeat split; lia. Qed.

Lemma normal_lit_3_47 : normal lit_3_47.
Proof. exists 7813745353487811%positive, (-51)%Z. repeat split; lia. Qed.

Lemma fval_lit_4_84 : fval lit_4_84 * 1125899906842624 = 5449355549118300.
Proof.
  cbv beta iota delta [lit_4_84 fval].
  pose proof (pow2_neg 50 ltac:(lia)) as H.
  change (IZR (2 ^ 50)) with 1125899906842624 in H. simpl Z.opp in H. lra.
Qed.

Lemma fval_lit_3_47 : fval lit_3_47 * 2251799813685248 = 7813745353487811.
Proof.
  cbv beta iota delta [lit_3_47 fval].
  pose proof (pow2_neg 51 ltac:(lia)) as H.
  change (IZR (2 ^ 51)) with 2251799813685248 in H. simpl Z.opp in H. lra.
Qed.

(** The two constants are the literals of the source: each is the binary64
    value that the decimal rounds to. *)
Lemma lit_4_84_correct : rounds_to (484 / 100) lit_4_84.
Proof.
  exists 5449355549118300%Z, (-50)%Z.
  pose proof (pow2_neg 50 ltac:(lia)) as H.
  change (IZR (2 ^ 50)) with 1125899906842624 in H. simpl Z.opp in H.
  pose proof (pow2_pos (-50)) as Hp.
  split; [|split; [lia|split; [|reflexivity]]].
  - unfold in_binade. simpl Z.add. rewrite (pow2_IZR 2), (pow2_IZR 3) by lia.
    change (IZR (2 ^ 2)) with 4. change (IZR (2 ^ 3)) with 8. lra.
  - split; [lia|]. split; [lra|]. intros [A|A]; lra.
Qed.

Lemma lit_3_47_correct : rounds_to (347 / 100) lit_3_47.
Proof.
  exists 7813745353487811%Z, (-51)%Z.
  pose proof (pow2_neg 51 ltac:(lia)) as H.
  change (IZR (2 ^ 51)) with 2251799813685248 in H. simpl Z.opp in H.
  pose proof (pow2_pos (-51)) as Hp.
  split; [|split; [lia|split; [|reflexivity]]].
  - unfold in_binade. simpl Z.add. rewrite (pow2_IZR 1), (pow2_IZR 2) by lia.
    change (IZR (2 ^ 1)) with 2. change (IZR (2 ^ 2)) with 4. lra.
  - split; [lia|]. split; [lra|]. intros [A|A]; lra.
Qed.

Lemma range_lit_4_84 : 1 <= fval lit_4_84 <= 100.
Proof. pose proof fval_lit_4_84. lra. Qed.

Lemma range_lit_3_47 : 1 <= fval lit_3_47 <= 100.
Proof. pose proof fval_lit_3_47. lra. Qed.

Theorem bleed_per_side_width_exact (w : Z) :
  (1 <= w < 4398046511104)%Z ->
  bleed_per_side w WIDTH_BLEED_PERCENT = Ok (w * 484 / 10000)%Z.
Proof.
  apply (bleed_per_side_exact lit_4_84 484 normal_lit_4_84); try lia.
  - pose proof fval_lit_4_84. lra.
  - right. pose proof fval_lit_4_84. lra.
Qed.

Theorem bleed_per_side_height_exact (h : Z) :
  (1 <= h < 4398046511104)%Z ->
  bleed_per_side h HEIGHT_BLEED_PERCENT = Ok (h * 347 / 10000)%Z.
Proof.
  apply (bleed_per_side_exact lit_3_47 347 normal_lit_3_47); try lia.
  - pose proof fval_lit_3_47. lra.
  - left. pose proof fval_lit_3_47. lra.
Qed.

End Float64Facts.
(* ================================================================= *)
(** * Theory of the image operations *)

Module PILFacts.

(** ** Ranges *)

Lemma range_length a b : List.length (range a b) = Z.to_nat (b - a).
Proof. unfold range. rewrite length_map, length_seq. reflexivity. Qed.

Lemma range_nth a b i d :
  0 <= i < b - a -> nth (Z.to_nat i) (range a b) d = a + i.
Proof.
  intros H. unfold range.
  rewrite (nth_indep _ d (a + Z.of_nat 0)) by (rewrite length_map, length_seq; lia).
  rewrite (map_nth (fun i => a + Z.of_nat i)), seq_nth by lia.
  lia.
Qed.

Lemma range_In a b y : In y (range a b) <-> a <= y < b.
Proof.
  unfold range. rewrite in_map_iff. split.
  - intros (i & <- & Hi). apply in_seq in Hi. lia.
  - intros H. exists (Z.to_nat (y - a)). split; [lia|]. apply in_seq. lia.
Qed.

Lemma existsb_range a b y :
  existsb (Z.eqb y) (range a b) = (a <=? y) && (y <? b).
Proof.
  destruct (existsb (Z.eqb y) (range a b)) eqn:E.
  - apply existsb_exists in E. destruct E as (y' & Hin & Heq).
    apply Z.eqb_eq in Heq. subst y'. apply range_In in Hin.
    symmetry. apply andb_true_intro. split; [apply Z.leb_le|apply Z.ltb_lt]; lia.
  - symmetry. apply not_true_is_false. intros H.
    apply andb_prop in H. destruct H as [H1 H2].
    apply Z.leb_le in H1. apply Z.ltb_lt in H2.
    assert (existsb (Z.eqb y) (range a b) = true) as C.
    { apply existsb_exists. exists y. split; [apply range_In; lia|apply Z.eqb_refl]. }
    congruence.
Qed.

(** ** Reading an image built by [tabulate] *)

Lemma tabulate_nth w h f x y d1 d2 :
  0 <= x < w -> 0 <= y < h ->
  nth (Z.to_nat x) (nth (Z.to_nat y) (tabulate w h f) d1) d2 = f x y.
Proof.
  intros Hx Hy. unfold tabulate.
  rewrite (nth_indep _ d1 ((fun y => map (fun x => f x y) (range 0 w)) 0))
    by (rewrite length_map, range_length; lia).
  rewrite (map_nth (fun y => map (fun x => f x y) (range 0 w))).
  rewrite range_nth by lia.
  rewrite (nth_indep _ d2 ((fun x => f x (0 + y)) 0))
    by (rewrite length_map, range_length; lia).
  rewrite (map_nth (fun x => f x (0 + y))).
  rewrite range_nth by lia. reflexivity.
Qed.

Lemma inside_true im x y :
  inside im x y = true <-> 0 <= x < width im /\ 0 <= y < height im.
Proof.
  unfold inside. rewrite !andb_true_iff, !Z.leb_le, !Z.ltb_lt. lia.
Qed.

Lemma load_tabulate m w h f x y :
  load (mkImage m w h (tabulate w h f)) x y =
  if inside (mkImage m w h (tabulate w h f)) x y then f x y else zero_pixel m.
Proof.
  unfold load. destruct (inside _ x y) eqn:E; [|reflexivity].
  apply inside_true in E. simpl in *. apply tabulate_nth; lia.
Qed.

Lemma wf_tabulate m w h f :
  0 <= w -> 0 <= h -> wf (mkImage m w h (tabulate w h f)).
Proof.
  intros Hw Hh. unfold wf, tabulate. simpl. repeat split; try assumption.
  - rewrite length_map, range_length. f_equal. lia.
  - apply Forall_forall. intros row Hin. apply in_map_iff in Hin.
    destruct Hin as (y & <- & _). rewrite length_map, range_length. f_equal. lia.
Qed.

(** Two well-formed images of one mode and size with the same pixels are
    equal. *)
Lemma tabulate_load (im : Image) :
  wf im -> tabulate (width im) (height im) (load im) = data im.
Proof.
  intros (Hw & Hh & Hlen & Hrows).
  apply (nth_ext _ _ [] []).
  - unfold tabulate. rewrite length_map, range_length. lia.
  - intros i Hi. unfold tabulate in Hi.
    rewrite length_map, range_length in Hi.
    assert (List.length (nth i (data im) []) = Z.to_nat (width im)) as Hrow.
    { rewrite Forall_forall in Hrows. apply Hrows. apply nth_In. lia. }
    apply (nth_ext _ _ (zero_pixel (mode im)) (zero_pixel (mode im))).
    + unfold tabulate.
      rewrite (nth_indep _ [] ((fun y => map (fun x => load im x y) (range 0 (width im))) 0))
        by (rewrite length_map, range_length; lia).
      rewrite (map_nth (fun y => map (fun x => load im x y) (range 0 (width im)))).
      rewrite length_map, range_length. lia.
    + intros j Hj.
      assert (j < Z.to_nat (width im))%nat as Hj'.
      { unfold tabulate in Hj.
        rewrite (nth_indep _ [] ((fun y => map (fun x => load im x y) (range 0 (width im))) 0)) in Hj
          by (rewrite length_map, range_length; lia).
        rewrite (map_nth (fun y => map (fun x => load im x y) (range 0 (width im)))) in Hj.
        rewrite length_map, range_length in Hj. lia. }
      rewrite <- (Nat2Z.id i), <- (Nat2Z.id j).
      rewrite tabulate_nth by lia.
      unfold load.
      assert (inside im (Z.of_nat j) (Z.of_nat i) = true) as ->
        by (apply inside_true; lia).
      reflexivity.
Qed.

(** ** The Pillow operations, pixel by pixel *)

Lemma inside_paste dst src p x y :
  inside (paste dst src p) x y = inside dst x y.
Proof. destruct p. reflexivity. Qed.

Lemma paste_size dst src p :
  width (paste dst src p) = width dst /\ height (paste dst src p) = height dst
  /\ mode (paste dst src p) = mode dst.
Proof. destruct p. repeat split. Qed.

Lemma load_paste dst src x0 y0 x y :
  inside dst x y = true ->
  load (paste dst src (x0, y0)) x y =
  if (x0 <=? x) && (x <? x0 + width src) &&
     (y0 <=? y) && (y <? y0 + height src)
  then load src (x - x0) (y - y0)
  else load dst x y.
Proof.
  intros Hin. unfold paste. rewrite load_tabulate.
  change (inside (mkImage _ _ _ _) x y) with (inside dst x y).
  rewrite Hin. reflexivity.
Qed.

Lemma load_crop im l u r d x y :
  0 <= x < r - l -> 0 <= y < d - u ->
  load (crop im (l, u, r, d)) x y = load im (x + l) (y + u).
Proof.
  intros Hx Hy. unfold crop. rewrite load_tabulate.
  assert (inside (mkImage (mode im) (r - l) (d - u)
                    (tabulate (r - l) (d - u)
                       (fun x y => load im (x + l) (y + u)))) x y = true) as ->
    by (apply inside_true; simpl; lia).
  reflexivity.
Qed.

Lemma load_new m w h im x y :
  PIL.new m (w, h) = Ok im -> inside im x y = true -> load im x y = zero_pixel m.
Proof.
  unfold PIL.new. destruct ((w <? 0) || (h <? 0)); [discriminate|].
  intros [= <-] Hin. rewrite load_tabulate, Hin. reflexivity.
Qed.

Lemma new_Ok m w h :
  0 <= w -> 0 <= h ->
  exists im, PIL.new m (w, h) = Ok im /\
             width im = w /\ height im = h /\ mode im = m /\ wf im.
Proof.
  intros Hw Hh. unfold PIL.new.
  assert ((w <? 0) || (h <? 0) = false) as ->.
  { apply orb_false_intro; apply Z.ltb_ge; lia. }
  eexists; split; [reflexivity|]. repeat split; try assumption;
    apply wf_tabulate; assumption.
Qed.

(** ** The loops that paste an edge *)

(** Pasting an edge of height 1 at the rows [ys]. *)
Lemma paste_rows_size edge x0 ys : forall ext,
  let out := fold_left (fun e y => paste e edge (x0, y)) ys ext in
  width out = width ext /\ height out = height ext /\ mode out = mode ext.
Proof.
  induction ys as [|y0 ys IH]; intros ext; cbn [fold_left].
  - auto.
  - destruct (IH (paste ext edge (x0, y0))) as (A & B & C).
    cbv zeta in *. rewrite A, B, C. apply paste_size.
Qed.

Lemma paste_cols_size edge y0 xs : forall ext,
  let out := fold_left (fun e x => paste e edge (x, y0)) xs ext in
  width out = width ext /\ height out = height ext /\ mode out = mode ext.
Proof.
  induction xs as [|x0 xs IH]; intros ext; cbn [fold_left].
  - auto.
  - destruct (IH (paste ext edge (x0, y0))) as (A & B & C).
    cbv zeta in *. rewrite A, B, C. apply paste_size.
Qed.

Lemma inside_eq im1 im2 x y :
  width im1 = width im2 -> height im1 = height im2 ->
  inside im1 x y = inside im2 x y.
Proof. unfold inside. intros -> ->. reflexivity. Qed.

Lemma unit_interval_eqb y y0 : (y0 <=? y) && (y <? y0 + 1) = (y =? y0).
Proof.
  destruct (Z.eqb_spec y y0) as [->|Hne].
  - apply andb_true_intro. split; [apply Z.leb_le|apply Z.ltb_lt]; lia.
  - apply not_true_is_false. intros H. apply andb_prop in H.
    destruct H as [H1 H2]. apply Z.leb_le in H1. apply Z.ltb_lt in H2. lia.
Qed.

Lemma load_paste_rows edge x0 ys : height edge = 1 -> forall ext x y,
  inside ext x y = true ->
  load (fold_left (fun e y' => paste e edge (x0, y')) ys ext) x y =
  if existsb (Z.eqb y) ys && ((x0 <=? x) && (x <? x0 + width edge))
  then load edge (x - x0) 0
  else load ext x y.
Proof.
  intros Hh. induction ys as [|y0 ys IH]; intros ext x y Hin; cbn [fold_left].
  - reflexivity.
  - rewrite IH by (rewrite inside_paste; exact Hin).
    rewrite load_paste by exact Hin. rewrite Hh. cbn [existsb].
    rewrite <- andb_assoc, unit_interval_eqb.
    destruct ((x0 <=? x) && (x <? x0 + width edge));
      [|rewrite !andb_false_r; reflexivity].
    rewrite !andb_true_r, andb_true_l.
    destruct (existsb (Z.eqb y) ys); [rewrite orb_true_r; reflexivity|].
    rewrite orb_false_r.
    destruct (Z.eqb_spec y y0) as [->|Hne]; [|reflexivity].
    replace (y0 - y0) with 0 by lia. reflexivity.
Qed.

Lemma load_paste_cols edge y0 xs : width edge = 1 -> forall ext x y,
  inside ext x y = true ->
  load (fold_left (fun e x' => paste e edge (x', y0)) xs ext) x y =
  if existsb (Z.eqb x) xs && ((y0 <=? y) && (y <? y0 + height edge))
  then load edge 0 (y - y0)
  else load ext x y.
Proof.
  intros Hw. induction xs as [|x0 xs IH]; intros ext x y Hin; cbn [fold_left].
  - reflexivity.
  - rewrite IH by (rewrite inside_paste; exact Hin).
    rewrite load_paste by exact Hin. rewrite Hw. cbn [existsb].
    rewrite unit_interval_eqb, <- andb_assoc.
    destruct ((y0 <=? y) && (y <? y0 + height edge));
      [|rewrite !andb_false_r; reflexivity].
    rewrite !andb_true_r.
    destruct (existsb (Z.eqb x) xs); [rewrite orb_true_r; reflexivity|].
    rewrite orb_false_r.
    destruct (Z.eqb_spec x x0) as [->|Hne]; [|reflexivity].
    replace (x0 - x0) with 0 by lia. reflexivity.
Qed.

(** ** The four edge extensions *)

Ltac zb :=
  repeat match goal with
  | |- context [(?a <=? ?b)] =>
      first [ replace (a <=? b) with true by (symmetry; apply Z.leb_le; lia)
            | replace (a <=? b) with false by (symmetry; apply Z.leb_gt; lia) ]
  | |- context [(?a <? ?b)] =>
      first [ replace (a <? b) with true by (symmetry; apply Z.ltb_lt; lia)
            | replace (a <? b) with false by (symmetry; apply Z.ltb_ge; lia) ]
  end; cbn [andb orb].

Lemma extend_top_size e img top l :
  width (extend_top e img top l) = width e /\
  height (extend_top e img top l) = height e /\
  mode (extend_top e img top l) = mode e.
Proof.
  unfold extend_top. destruct (0 <? top); [apply paste_rows_size|auto].
Qed.

Lemma extend_bottom_size e img top bottom l nh :
  width (extend_bottom e img top bottom l nh) = width e /\
  height (extend_bottom e img top bottom l nh) = height e /\
  mode (extend_bottom e img top bottom l nh) = mode e.
Proof.
  unfold extend_bottom. destruct (0 <? bottom); [apply paste_rows_size|auto].
Qed.

Lemma extend_left_size e l nh :
  width (extend_left e l nh) = width e /\
  height (extend_left e l nh) = height e /\
  mode (extend_left e l nh) = mode e.
Proof.
  unfold extend_left. destruct (0 <? l); [apply paste_cols_size|auto].
Qed.

Lemma extend_right_size e w l r nw nh :
  width (extend_right e w l r nw nh) = width e /\
  height (extend_right e w l r nw nh) = height e /\
  mode (extend_right e w l r nw nh) = mode e.
Proof.
  unfold extend_right. destruct (0 <? r); [apply paste_cols_size|auto].
Qed.

Lemma load_extend_top e img top l x y :
  inside e x y = true ->
  load (extend_top e img top l) x y =
  if (0 <=? y) && (y <? top) && ((l <=? x) && (x <? l + width img))
  then load img (x - l) 0
  else load e x y.
Proof.
  intros Hin. unfold extend_top.
  destruct (Z.ltb_spec 0 top) as [Ht|Ht].
  - rewrite load_paste_rows by (reflexivity || exact Hin).
    rewrite existsb_range.
    change (width (crop img (0, 0, width img, 1))) with (width img - 0).
    replace (width img - 0) with (width img) by lia.
    destruct ((0 <=? y) && (y <? top)); [|reflexivity]. cbn [andb].
    destruct (Z.leb_spec l x); [|reflexivity].
    destruct (Z.ltb_spec x (l + width img)); [|reflexivity]. cbn [andb].
    rewrite load_crop by lia. f_equal; lia.
  - replace (y <? top) with false by (symmetry; apply Z.ltb_ge; apply inside_true in Hin; lia).
    rewrite andb_false_r. reflexivity.
Qed.

Lemma load_extend_bottom e img top bottom l nh x y :
  inside e x y = true ->
  load (extend_bottom e img top bottom l nh) x y =
  if (top + height img <=? y) && (y <? nh) &&
     ((l <=? x) && (x <? l + width img)) && (0 <? bottom)
  then load img (x - l) (height img - 1)
  else load e x y.
Proof.
  intros Hin. unfold extend_bottom.
  destruct (Z.ltb_spec 0 bottom) as [Hb|Hb].
  - rewrite load_paste_rows by (simpl; lia || exact Hin).
    rewrite existsb_range, andb_true_r.
    change (width (crop img (0, height img - 1, width img, height img)))
      with (width img - 0).
    replace (width img - 0) with (width img) by lia.
    destruct ((top + height img <=? y) && (y <? nh)); [|reflexivity].
    cbn [andb].
    destruct (Z.leb_spec l x); [|reflexivity].
    destruct (Z.ltb_spec x (l + width img)); [|reflexivity]. cbn [andb].
    rewrite load_crop by lia. f_equal; lia.
  - rewrite andb_false_r. reflexivity.
Qed.

Lemma load_extend_left e l nh x y :
  inside e x y = true -> height e = nh ->
  load (extend_left e l nh) x y =
  if (0 <=? x) && (x <? l) then load e l y else load e x y.
Proof.
  intros Hin Hh. pose proof Hin as Hin'. apply inside_true in Hin'.
  unfold extend_left.
  destruct (Z.ltb_spec 0 l) as [Hl|Hl].
  - rewrite load_paste_cols by (simpl; lia || exact Hin).
    rewrite existsb_range.
    change (height (crop e (l, 0, l + 1, nh))) with (nh - 0).
    replace ((0 <=? y) && (y <? 0 + (nh - 0))) with true
      by (symmetry; apply andb_true_intro;
          split; [apply Z.leb_le|apply Z.ltb_lt]; lia).
    rewrite andb_true_r.
    destruct ((0 <=? x) && (x <? l)); [|reflexivity].
    rewrite load_crop by lia. f_equal; lia.
  - replace (x <? l) with false by (symmetry; apply Z.ltb_ge; lia).
    rewrite andb_false_r. reflexivity.
Qed.

Lemma load_extend_right e w l r nw nh x y :
  inside e x y = true -> height e = nh ->
  load (extend_right e w l r nw nh) x y =
  if (l + w <=? x) && (x <? nw) && (0 <? r)
  then load e (l + w - 1) y else load e x y.
Proof.
  intros Hin Hh. pose proof Hin as Hin'. apply inside_true in Hin'.
  unfold extend_right.
  destruct (Z.ltb_spec 0 r) as [Hr|Hr].
  - rewrite load_paste_cols by (simpl; lia || exact Hin).
    rewrite existsb_range, andb_true_r.
    change (height (crop e (l + w - 1, 0, l + w, nh))) with (nh - 0).
    replace ((0 <=? y) && (y <? 0 + (nh - 0))) with true
      by (symmetry; apply andb_true_intro;
          split; [apply Z.leb_le|apply Z.ltb_lt]; lia).
    rewrite andb_true_r.
    destruct ((l + w <=? x) && (x <? nw)); [|reflexivity].
    rewrite load_crop by lia. f_equal; lia.
  - rewrite andb_false_r. reflexivity.
Qed.

(** ** The canvas, pixel by pixel *)

Section Canvas.

Variables (canvas img : Image) (top bottom left_ right_ : Z).
Hypothesis img_pos : 1 <= width img /\ 1 <= height img.
Hypothesis margins_nonneg :
  0 <= top /\ 0 <= bottom /\ 0 <= left_ /\ 0 <= right_.
Hypothesis canvas_width : width canvas = width img + left_ + right_.
Hypothesis canvas_height : height canvas = height img + top + bottom.

(** The canvas after line 168 and after each of the four blocks. *)
Local Notation "'new_width'" := (width img + left_ + right_).
Local Notation "'new_height'" := (height img + top + bottom).
Local Notation "'e1'" := (paste canvas img (left_, top)).
Local Notation "'e2'" := (extend_top e1 img top left_).
Local Notation "'e3'" := (extend_bottom e2 img top bottom left_ new_height).
Local Notation "'e4'" := (extend_left e3 left_ new_height).
Local Notation "'e5'" :=
  (extend_right e4 (width img) left_ right_ new_width new_height).

Lemma paste_and_extend_stages :
  paste_and_extend canvas img top bottom left_ right_ = e5.
Proof. reflexivity. Qed.

Lemma e1_size :
  width e1 = new_width /\ height e1 = new_height /\ mode e1 = mode canvas.
Proof.
  destruct (paste_size canvas img (left_, top)) as (A & B & C).
  rewrite A, B, C. auto.
Qed.

Lemma e2_size :
  width e2 = new_width /\ height e2 = new_height /\ mode e2 = mode canvas.
Proof.
  destruct (extend_top_size e1 img top left_) as (A & B & C).
  rewrite A, B, C. exact e1_size.
Qed.

Lemma e3_size :
  width e3 = new_width /\ height e3 = new_height /\ mode e3 = mode canvas.
Proof.
  destruct (extend_bottom_size e2 img top bottom left_ new_height)
    as (A & B & C).
  rewrite A, B, C. exact e2_size.
Qed.

Lemma e4_size :
  width e4 = new_width /\ height e4 = new_height /\ mode e4 = mode canvas.
Proof.
  destruct (extend_left_size e3 left_ new_height) as (A & B & C).
  rewrite A, B, C. exact e3_size.
Qed.

Lemma paste_and_extend_size :
  width (paste_and_extend canvas img top bottom left_ right_) = new_width /\
  height (paste_and_extend canvas img top bottom left_ right_) = new_height /\
  mode (paste_and_extend canvas img top bottom left_ right_) = mode canvas.
Proof.
  rewrite paste_and_extend_stages.
  destruct (extend_right_size e4 (width img) left_ right_ new_width new_height)
    as (A & B & C).
  rewrite A, B, C. exact e4_size.
Qed.

Lemma inside_stage e x y :
  width e = new_width -> height e = new_height ->
  0 <= x < new_width -> 0 <= y < new_height -> inside e x y = true.
Proof. intros Hw Hh Hx Hy. apply inside_true. lia. Qed.

(** After the top and bottom strips: the columns of the source are complete
    from the first to the last row of the canvas. *)
Lemma load_e3 x y :
  left_ <= x < left_ + width img -> 0 <= y < new_height ->
  load e3 x y = load img (x - left_) (clamp 0 (height img - 1) (y - top)).
Proof.
  intros Hx Hy.
  rewrite load_extend_bottom
    by (apply inside_stage; try apply e2_size; lia).
  rewrite load_extend_top
    by (apply inside_stage; try apply e1_size; lia).
  rewrite load_paste by (apply inside_true; lia).
  unfold clamp.
  destruct (Z_lt_le_dec y top); [|destruct (Z_lt_le_dec y (top + height img))];
    zb; f_equal; lia.
Qed.

(** After the left strip: everything left of the right margin is final. *)
Lemma load_e4 x y :
  0 <= x < left_ + width img -> 0 <= y < new_height ->
  load e4 x y = load img (clamp 0 (width img - 1) (x - left_))
                         (clamp 0 (height img - 1) (y - top)).
Proof.
  intros Hx Hy.
  rewrite load_extend_left
    by (try apply inside_stage; try apply e3_size; lia).
  destruct (Z_lt_le_dec x left_); zb;
    rewrite load_e3 by lia; unfold clamp; f_equal; lia.
Qed.

(** Every pixel of the canvas is the pixel of the source nearest to it. *)
Theorem load_paste_and_extend x y :
  0 <= x < new_width -> 0 <= y < new_height ->
  load (paste_and_extend canvas img top bottom left_ right_) x y =
  load img (clamp 0 (width img - 1) (x - left_))
           (clamp 0 (height img - 1) (y - top)).
Proof.
  intros Hx Hy. rewrite paste_and_extend_stages.
  rewrite load_extend_right
    by (try apply inside_stage; try apply e4_size; lia).
  destruct (Z_lt_le_dec x (left_ + width img)); zb;
    rewrite load_e4 by lia; unfold clamp; f_equal; lia.
Qed.

End Canvas.

End PILFacts.

(* ================================================================= *)
(** * Properties of the margin calculator *)

Import Float64 Float64Spec Float64Facts PILFacts.

Lemma Qfloor_percent (n N : Z) :
  Qfloor (inject_Z n * (N # 100) / inject_Z 100) = n * N / 10000.
Proof.
  unfold Qfloor, Qdiv, Qmult, Qinv, inject_Z. simpl Qnum. simpl Qden.
  rewrite Z.mul_1_r. reflexivity.
Qed.

Lemma calculate_margins_div (w h : Z) :
  calculate_margins w h =
  (h * 347 / 10000, h * 347 / 10000, w * 484 / 10000, w * 484 / 10000).
Proof.
  unfold calculate_margins.
  change 4.84%Q with (484 # 100)%Q. change 3.47%Q with (347 # 100)%Q.
  rewrite !Qfloor_percent. reflexivity.
Qed.

Lemma calculate_bleed_pixels_inv (w h top bottom left_ right_ : Z) :
  calculate_bleed_pixels w h = Ok (top, bottom, left_, right_) ->
  bleed_per_side w WIDTH_BLEED_PERCENT = Ok left_ /\
  bleed_per_side h HEIGHT_BLEED_PERCENT = Ok top /\
  bottom = top /\ right_ = left_.
Proof.
  unfold calculate_bleed_pixels.
  destruct (bleed_per_side w WIDTH_BLEED_PERCENT) as [hz|]; [|discriminate].
  destruct (bleed_per_side h HEIGHT_BLEED_PERCENT) as [vt|]; [|discriminate].
  cbn [py_bind]. intros [= <- <- <- <-]. auto.
Qed.

Lemma calculate_bleed_pixels_nonneg (w h top bottom left_ right_ : Z) :
  1 <= w -> 1 <= h ->
  calculate_bleed_pixels w h = Ok (top, bottom, left_, right_) ->
  0 <= top /\ 0 <= bottom /\ 0 <= left_ /\ 0 <= right_.
Proof.
  intros Hw Hh H.
  destruct (calculate_bleed_pixels_inv _ _ _ _ _ _ H) as (Hl & Ht & -> & ->).
  destruct (bleed_per_side_mono _ normal_lit_4_84 range_lit_4_84 w w left_
              ltac:(lia) Hl) as (k1 & E1 & B1).
  destruct (bleed_per_side_mono _ normal_lit_3_47 range_lit_3_47 h h top
              ltac:(lia) Ht) as (k2 & E2 & B2).
  lia.
Qed.

(** The calculator returns on all positive dimensions below [2^1000], and
    raises on integers that [float] cannot hold. *)
Lemma calculate_bleed_pixels_returns (w h : Z) :
  1 <= w < 2 ^ 1000 -> 1 <= h < 2 ^ 1000 ->
  exists margins, calculate_bleed_pixels w h = Ok margins.
Proof.
  intros Hw Hh.
  destruct (bleed_per_side_returns _ normal_lit_4_84 range_lit_4_84 w Hw)
    as (l & Hl).
  destruct (bleed_per_side_returns _ normal_lit_3_47 range_lit_3_47 h Hh)
    as (t & Ht).
  exists (t, t, l, l).
  unfold calculate_bleed_pixels, WIDTH_BLEED_PERCENT, HEIGHT_BLEED_PERCENT.
  rewrite Hl, Ht. reflexivity.
Qed.

Example calculate_bleed_pixels_overflow :
  calculate_bleed_pixels (2 ^ 1024) 1 = Raise OverflowError.
Proof. vm_compute. reflexivity. Qed.

(** C4 does not hold as stated: for a height of 35184372080317 the
    binary64 computation returns 1220897711187 while
    [floor(height * 3.47 / 100)] is 1220897711186. *)
Lemma calculate_margins_float_deviation :
  calculate_bleed_pixels 1 35184372080317
  = Ok (1220897711187, 1220897711187, 0, 0) /\
  calculate_margins 1 35184372080317 = (1220897711186, 1220897711186, 0, 0) /\
  calculate_bleed_pixels 1 35184372080317
  <> Ok (calculate_margins 1 35184372080317).
Proof.
  split; [vm_compute; reflexivity|]. split; [vm_compute; reflexivity|].
  intros H. vm_compute in H. discriminate H.
Qed.

(** Below [2^42] the binary64 computation agrees with the decimal
    percentages. *)
Lemma calculate_bleed_pixels_exact (width height : Z) :
  1 <= width < 4398046511104 -> 1 <= height < 4398046511104 ->
  calculate_bleed_pixels width height = Ok (calculate_margins width height).
Proof.
  intros Hw Hh. unfold calculate_bleed_pixels.
  rewrite (bleed_per_side_width_exact width Hw).
  rewrite (bleed_per_side_height_exact height Hh).
  rewrite calculate_margins_div. reflexivity.
Qed.

(** C4, amended.  For all positive integers [width] and [height] below
    [2^42], [calculate_bleed_pixels] returns exactly
    [(vertical, vertical, horizontal, horizontal)] with
    [horizontal = floor(width * 4.84 / 100)] and
    [vertical = floor(height * 3.47 / 100)] computed over the rationals. *)
Theorem calculate_bleed_pixels_below_2_42 (width height : Z) :
  1 <= width < 2 ^ 42 -> 1 <= height < 2 ^ 42 ->
  calculate_bleed_pixels width height = Ok (calculate_margins width height).
Proof.
  change (2 ^ 42) with 4398046511104. apply calculate_bleed_pixels_exact.
Qed.

Lemma calculate_bleed_pixels_below_2_42_witness :
  calculate_bleed_pixels 750 1050 = Ok (calculate_margins 750 1050).
Proof.
  apply (calculate_bleed_pixels_below_2_42 750 1050); vm_compute; split;
    (discriminate || reflexivity).
Defined.

(** C10.  [calculate_bleed_pixels] is monotone in each argument: when it
    returns for [(w', h')], it returns for all positive [w <= w'] and
    [h <= h'], with every component at most the corresponding one; the
    horizontal margins depend on the width only and the vertical margins on
    the height only. *)
Theorem calculate_bleed_pixels_monotone
    (w w' h h' top' bottom' left' right' : Z) :
  1 <= w <= w' -> 1 <= h <= h' ->
  calculate_bleed_pixels w' h' = Ok (top', bottom', left', right') ->
  (exists top bottom left_ right_,
     calculate_bleed_pixels w h = Ok (top, bottom, left_, right_) /\
     top <= top' /\ bottom <= bottom' /\ left_ <= left' /\ right_ <= right') /\
  (forall h2 top2 bottom2 left2 right2,
     calculate_bleed_pixels w' h2 = Ok (top2, bottom2, left2, right2) ->
     left2 = left' /\ right2 = right') /\
  (forall w2 top2 bottom2 left2 right2,
     calculate_bleed_pixels w2 h' = Ok (top2, bottom2, left2, right2) ->
     top2 = top' /\ bottom2 = bottom').
Proof.
  intros Hw Hh H.
  destruct (calculate_bleed_pixels_inv _ _ _ _ _ _ H) as (Hl & Ht & -> & ->).
  split; [|split].
  - destruct (bleed_per_side_mono _ normal_lit_4_84 range_lit_4_84 w w' left'
                Hw Hl) as (l & El & Bl).
    destruct (bleed_per_side_mono _ normal_lit_3_47 range_lit_3_47 h h' top'
                Hh Ht) as (t & Et & Bt).
    exists t, t, l, l. split; [|lia].
    unfold calculate_bleed_pixels, WIDTH_BLEED_PERCENT, HEIGHT_BLEED_PERCENT.
    rewrite El, Et. reflexivity.
  - intros h2 top2 bottom2 left2 right2 H2.
    destruct (calculate_bleed_pixels_inv _ _ _ _ _ _ H2) as (Hl2 & _ & _ & ->).
    rewrite Hl in Hl2. injection Hl2 as ->. auto.
  - intros w2 top2 bottom2 left2 right2 H2.
    destruct (calculate_bleed_pixels_inv _ _ _ _ _ _ H2) as (_ & Ht2 & -> & _).
    rewrite Ht in Ht2. injection Ht2 as ->. auto.
Qed.

Lemma calculate_bleed_pixels_monotone_witness :
  exists top bottom left_ right_,
    calculate_bleed_pixels 100 140 = Ok (top, bottom, left_, right_) /\
    top <= 36 /\ bottom <= 36 /\ left_ <= 36 /\ right_ <= 36.
Proof.
  apply (calculate_bleed_pixels_monotone 100 750 140 1050 36 36 36 36);
    [lia | lia | vm_compute; reflexivity].
Defined.

(** C6.  The margins of the standard card and of the small image of the test
    suite: [calculate_bleed_pixels(750, 1050)] returns [(36, 36, 36, 36)] and
    [calculate_bleed_pixels(100, 140)] returns [(4, 4, 4, 4)]. *)
Theorem calculate_bleed_pixels_test_values :
  calculate_bleed_pixels 750 1050 = Ok (36, 36, 36, 36) /\
  calculate_bleed_pixels 100 140 = Ok (4, 4, 4, 4).
Proof. split; vm_compute; reflexivity. Qed.

(** The scenario of [test_add_bleed_border_basic]: the 100 x 140 test image
    gives a 108 x 148 canvas with a yellow pixel at [(2, 50)], a magenta one at
    [(105, 50)] and a blue one at [(50, 2)]. *)
Example test_add_bleed_border_basic :
  match img <- test_image ;; extended_img img with
  | Ok out =>
      size out = (108, 148) /\
      getpixel out (2, 50) = Some [255; 255; 0] /\
      getpixel out (105, 50) = Some [255; 0; 255] /\
      getpixel out (50, 2) = Some [0; 0; 255]
  | Raise _ => False
  end.
Proof. vm_compute. repeat split. Qed.

(* ================================================================= *)
(** * Properties of the canvas *)

Lemma getpixel_load im x y :
  0 <= x < width im -> 0 <= y < height im ->
  getpixel im (x, y) = Some (load im x y).
Proof.
  intros Hx Hy. unfold getpixel.
  replace (inside im x y) with true by (symmetry; apply inside_true; lia).
  reflexivity.
Qed.

Lemma tabulate_ext w h f g :
  (forall x y, 0 <= x < w -> 0 <= y < h -> f x y = g x y) ->
  tabulate w h f = tabulate w h g.
Proof.
  intros H. unfold tabulate. apply map_ext_in. intros y Hy.
  apply range_In in Hy. apply map_ext_in. intros x Hx.
  apply range_In in Hx. apply H; lia.
Qed.

Section Bleed.

Variables (img : Image) (top bottom left_ right_ : Z).
Hypothesis img_rgb : rgb_image img.
Hypothesis margins :
  calculate_bleed_pixels (width img) (height img)
  = Ok (top, bottom, left_, right_).

Local Notation "'new_width'" := (width img + left_ + right_).
Local Notation "'new_height'" := (height img + top + bottom).

Lemma img_pos : 1 <= width img /\ 1 <= height img.
Proof. destruct img_rgb as (_ & _ & H). exact H. Qed.

Lemma margins_nonneg : 0 <= top /\ 0 <= bottom /\ 0 <= left_ /\ 0 <= right_.
Proof.
  destruct img_pos.
  apply (calculate_bleed_pixels_nonneg (width img) (height img)); assumption.
Qed.

(** The body of [add_bleed_border] returns the canvas that
    [paste_and_extend] fills, starting from the one [Image.new] allocates. *)
Lemma extended_img_Ok :
  exists canvas,
    PIL.new "RGB" (new_width, new_height) = Ok canvas /\
    width canvas = new_width /\ height canvas = new_height /\
    extended_img img
    = Ok (paste_and_extend canvas img top bottom left_ right_).
Proof.
  destruct img_pos. destruct margins_nonneg as (? & ? & ? & ?).
  destruct (new_Ok "RGB" new_width new_height) as (canvas & Hnew & Hw & Hh & _);
    try lia.
  exists canvas. repeat split; try assumption.
  unfold extended_img, size. rewrite margins. cbn [py_bind].
  rewrite Hnew. reflexivity.
Qed.

(** Every pixel of the canvas that [paste_and_extend] fills, whatever the
    canvas held before, is the pixel of the source nearest to it. *)
Lemma getpixel_paste_and_extend canvas x y :
  width canvas = new_width -> height canvas = new_height ->
  0 <= x < new_width -> 0 <= y < new_height ->
  getpixel (paste_and_extend canvas img top bottom left_ right_) (x, y)
  = getpixel img (clamp 0 (width img - 1) (x - left_),
                  clamp 0 (height img - 1) (y - top)).
Proof.
  intros Hw Hh Hx Hy.
  pose proof img_pos as Hpos. pose proof margins_nonneg as Hm.
  destruct (paste_and_extend_size canvas img top bottom left_ right_ Hw Hh)
    as (Sw & Sh & _).
  rewrite getpixel_load by (rewrite ?Sw, ?Sh; assumption).
  rewrite getpixel_load by (unfold clamp; lia).
  f_equal. apply load_paste_and_extend; assumption.
Qed.

(** C5.  The output canvas has width [w + left + right] and height
    [h + top + bottom]. *)
Theorem canvas_dimensions :
  exists out, extended_img img = Ok out /\
    size out = (width img + left_ + right_, height img + top + bottom).
Proof.
  destruct extended_img_Ok as (canvas & _ & Hw & Hh & Hout).
  eexists; split; [exact Hout|].
  destruct (paste_and_extend_size canvas img top bottom left_ right_ Hw Hh)
    as (Sw & Sh & _).
  unfold size. rewrite Sw, Sh. reflexivity.
Qed.

(** C1.  Edge replication: the top strip repeats row 0 of the source, the
    bottom strip its last row, the left strip column [left] of the canvas and
    the right strip column [left + width - 1] of the canvas. *)
Theorem edge_replication :
  exists out, extended_img img = Ok out /\
    (forall x y, left_ <= x < left_ + width img -> 0 <= y < top ->
       getpixel out (x, y) = getpixel img (x - left_, 0)) /\
    (forall x y, left_ <= x < left_ + width img ->
       top + height img <= y < new_height ->
       getpixel out (x, y) = getpixel img (x - left_, height img - 1)) /\
    (forall x y, 0 <= x < left_ -> 0 <= y < new_height ->
       getpixel out (x, y) = getpixel out (left_, y)) /\
    (forall x y, left_ + width img <= x < new_width -> 0 <= y < new_height ->
       getpixel out (x, y) = getpixel out (left_ + width img - 1, y)).
Proof.
  destruct extended_img_Ok as (canvas & _ & Hw & Hh & Hout).
  pose proof img_pos as Hpos. pose proof margins_nonneg as Hm.
  eexists; split; [exact Hout|].
  repeat split; intros x y Hx Hy;
    rewrite !(getpixel_paste_and_extend canvas)
      by (assumption || lia);
    unfold clamp; f_equal; f_equal; lia.
Qed.

(** C2.  Corner consistency: each corner rectangle of the margin holds one
    colour, the corresponding corner pixel of the source. *)
Theorem corner_consistency :
  exists out, extended_img img = Ok out /\
    (forall x y, 0 <= x < left_ -> 0 <= y < top ->
       getpixel out (x, y) = getpixel img (0, 0)) /\
    (forall x y, left_ + width img <= x < new_width -> 0 <= y < top ->
       getpixel out (x, y) = getpixel img (width img - 1, 0)) /\
    (forall x y, 0 <= x < left_ -> top + height img <= y < new_height ->
       getpixel out (x, y) = getpixel img (0, height img - 1)) /\
    (forall x y, left_ + width img <= x < new_width ->
       top + height img <= y < new_height ->
       getpixel out (x, y) = getpixel img (width img - 1, height img - 1)).
Proof.
  destruct extended_img_Ok as (canvas & _ & Hw & Hh & Hout).
  pose proof img_pos as Hpos. pose proof margins_nonneg as Hm.
  eexists; split; [exact Hout|].
  repeat split; intros x y Hx Hy;
    rewrite !(getpixel_paste_and_extend canvas)
      by (assumption || lia);
    unfold clamp; f_equal; f_equal; lia.
Qed.

(** C3.  Centre preservation: the region of the canvas at offset
    [(left, top)] of the size of the source equals the source, and none of
    the four strip fills changes a pixel of that region, on any canvas of the
    output size. *)
Theorem center_preservation :
  (exists out, extended_img img = Ok out /\
     forall x y, 0 <= x < width img -> 0 <= y < height img ->
       getpixel out (left_ + x, top + y) = getpixel img (x, y)) /\
  (forall e x y,
     width e = new_width -> height e = new_height ->
     in_center (width img) (height img) top left_ x y ->
     getpixel (extend_top e img top left_) (x, y) = getpixel e (x, y) /\
     getpixel (extend_bottom e img top bottom left_ new_height) (x, y)
     = getpixel e (x, y) /\
     getpixel (extend_left e left_ new_height) (x, y) = getpixel e (x, y) /\
     getpixel (extend_right e (width img) left_ right_ new_width new_height)
       (x, y) = getpixel e (x, y)).
Proof.
  pose proof img_pos as Hpos. pose proof margins_nonneg as Hm.
  split.
  - destruct extended_img_Ok as (canvas & _ & Hw & Hh & Hout).
    eexists; split; [exact Hout|]. intros x y Hx Hy.
    rewrite (getpixel_paste_and_extend canvas)
      by (assumption || lia).
    unfold clamp; f_equal; f_equal; lia.
  - intros e x y Hw Hh [Hx Hy].
    assert (inside e x y = true) as Hin by (apply inside_true; lia).
    destruct (extend_top_size e img top left_) as (A1 & B1 & _).
    destruct (extend_bottom_size e img top bottom left_
                (height img + top + bottom)) as (A2 & B2 & _).
    destruct (extend_left_size e left_ (height img + top + bottom))
      as (A3 & B3 & _).
    destruct (extend_right_size e (width img) left_ right_
                (width img + left_ + right_) (height img + top + bottom))
      as (A4 & B4 & _).
    rewrite !getpixel_load by lia.
    rewrite load_extend_top, load_extend_bottom, load_extend_left,
      load_extend_right by assumption.
    zb. auto.
Qed.

(** C7.  Every position of the canvas lies in the rectangle that the paste
    writes or in one of the four strips, and the pixel there is a pixel of the
    source whatever the canvas held when it was allocated. *)
Theorem canvas_fully_overwritten :
  exists out, extended_img img = Ok out /\
    forall x y, 0 <= x < new_width -> 0 <= y < new_height ->
      (in_center (width img) (height img) top left_ x y \/
       in_top_strip (width img) top left_ x y \/
       in_bottom_strip (width img) (height img) top bottom left_ x y \/
       in_left_strip (height img) top bottom left_ x y \/
       in_right_strip (width img) (height img) top bottom left_ right_ x y) /\
      (forall canvas,
         width canvas = new_width -> height canvas = new_height ->
         getpixel (paste_and_extend canvas img top bottom left_ right_) (x, y)
         = getpixel out (x, y)) /\
      getpixel out (x, y)
      = getpixel img (clamp 0 (width img - 1) (x - left_),
                      clamp 0 (height img - 1) (y - top)).
Proof.
  destruct extended_img_Ok as (canvas & _ & Hw & Hh & Hout).
  pose proof img_pos as Hpos. pose proof margins_nonneg as Hm.
  eexists; split; [exact Hout|]. intros x y Hx Hy.
  split; [|split].
  - unfold in_center, in_top_strip, in_bottom_strip, in_left_strip,
      in_right_strip in *. lia.
  - intros c0 Hw0 Hh0.
    rewrite !getpixel_paste_and_extend by assumption. reflexivity.
  - apply getpixel_paste_and_extend; assumption.
Qed.

End Bleed.

Lemma canvas_dimensions_witness :
  exists out, extended_img test_card = Ok out /\ size out = (23, 31).
Proof.
  apply (canvas_dimensions test_card 1 1 1 1).
  - unfold rgb_image, wf. simpl. repeat split; try lia; repeat constructor.
  - vm_compute. reflexivity.
Defined.

Lemma edge_replication_witness :
  exists out, extended_img test_card = Ok out /\
    getpixel out (5, 0) = getpixel test_card (4, 0) /\
    getpixel out (5, 30) = getpixel test_card (4, 28) /\
    getpixel out (0, 7) = getpixel out (1, 7) /\
    getpixel out (22, 7) = getpixel out (21, 7).
Proof.
  destruct (edge_replication test_card 1 1 1 1) as (out & Hout & T & B & L & R).
  - unfold rgb_image, wf. simpl. repeat split; try lia; repeat constructor.
  - vm_compute. reflexivity.
  - exists out. split; [exact Hout|]. simpl in T, B, L, R.
    split; [apply (T 5 0); lia|]. split; [apply (B 5 30); lia|].
    split; [apply (L 0 7); lia|apply (R 22 7); lia].
Defined.

Lemma corner_consistency_witness :
  exists out, extended_img test_card = Ok out /\
    getpixel out (0, 0) = getpixel test_card (0, 0) /\
    getpixel out (22, 0) = getpixel test_card (20, 0) /\
    getpixel out (0, 30) = getpixel test_card (0, 28) /\
    getpixel out (22, 30) = getpixel test_card (20, 28).
Proof.
  destruct (corner_consistency test_card 1 1 1 1)
    as (out & Hout & TL & TR & BL & BR).
  - unfold rgb_image, wf. simpl. repeat split; try lia; repeat constructor.
  - vm_compute. reflexivity.
  - exists out. split; [exact Hout|]. simpl in TL, TR, BL, BR.
    split; [apply (TL 0 0); lia|]. split; [apply (TR 22 0); lia|].
    split; [apply (BL 0 30); lia|apply (BR 22 30); lia].
Defined.

Lemma center_preservation_witness :
  exists out, extended_img test_card = Ok out /\
    getpixel out (1 + 4, 1 + 9) = getpixel test_card (4, 9).
Proof.
  destruct (center_preservation test_card 1 1 1 1)
    as ((out & Hout & C) & _).
  - unfold rgb_image, wf. simpl. repeat split; try lia; repeat constructor.
  - vm_compute. reflexivity.
  - exists out. split; [exact Hout|]. apply (C 4 9); simpl; lia.
Defined.

Lemma canvas_fully_overwritten_witness :
  exists out, extended_img test_card = Ok out /\
    getpixel out (22, 30) = getpixel test_card (20, 28).
Proof.
  destruct (canvas_fully_overwritten test_card 1 1 1 1) as (out & Hout & W).
  - unfold rgb_image, wf. simpl. repeat split; try lia; repeat constructor.
  - vm_compute. reflexivity.
  - exists out. split; [exact Hout|].
    destruct (W 22 30) as (_ & _ & E); [simpl; lia|simpl; lia|exact E].
Defined.

(** C9.  An image of width at most 20 and height at most 28 gets the margins
    [(0, 0, 0, 0)]; with these margins each of the four strip fills leaves
    every canvas as it is, and the output canvas is the source itself, in size
    and in every pixel. *)
Theorem zero_margins_identity (img : Image) :
  rgb_image img ->
  (width img <= 20 -> height img <= 28 ->
   calculate_bleed_pixels (width img) (height img) = Ok (0, 0, 0, 0)) /\
  (calculate_bleed_pixels (width img) (height img) = Ok (0, 0, 0, 0) ->
   extended_img img = Ok img /\
   forall e nw nh,
     extend_top e img 0 0 = e /\ extend_bottom e img 0 0 0 nh = e /\
     extend_left e 0 nh = e /\ extend_right e (width img) 0 0 nw nh = e).
Proof.
  intros (Hwf & Hmode & Hw & Hh). split.
  - intros Hw20 Hh28.
    rewrite calculate_bleed_pixels_exact by lia.
    rewrite calculate_margins_div.
    rewrite (Z.div_small (height img * 347)), (Z.div_small (width img * 484))
      by lia.
    reflexivity.
  - intros Hm. split; [|intros; repeat split].
    unfold extended_img, size. rewrite Hm. cbn [py_bind].
    rewrite !Z.add_0_r. unfold PIL.new.
    replace ((width img <? 0) || (height img <? 0)) with false
      by (symmetry; apply orb_false_intro; apply Z.ltb_ge; lia).
    cbn [py_bind]. f_equal.
    unfold paste_and_extend, size, extend_top, extend_bottom, extend_left,
      extend_right.
    cbn [Z.ltb Z.compare]. unfold paste. cbn [mode width height].
    rewrite (tabulate_ext _ _ _ (load img)).
    + rewrite (tabulate_load img Hwf), <- Hmode. destruct img; reflexivity.
    + intros x y Hx Hy. zb. f_equal; lia.
Qed.

Lemma zero_margins_identity_witness :
  (width tiny_card <= 20 -> height tiny_card <= 28 ->
   calculate_bleed_pixels (width tiny_card) (height tiny_card)
   = Ok (0, 0, 0, 0)) /\
  (calculate_bleed_pixels (width tiny_card) (height tiny_card)
   = Ok (0, 0, 0, 0) ->
   extended_img tiny_card = Ok tiny_card /\
   forall e nw nh,
     extend_top e tiny_card 0 0 = e /\ extend_bottom e tiny_card 0 0 0 nh = e /\
     extend_left e 0 nh = e /\ extend_right e (width tiny_card) 0 0 nw nh = e).
Proof.
  apply (zero_margins_identity tiny_card).
  unfold rgb_image, wf. simpl.
  repeat split; try lia; repeat constructor.
Defined.

(* ================================================================= *)
(** * Properties of the batch driver *)

Ltac pair_lia :=
  repeat match goal with |- (_, _) = (_, _) => f_equal end; lia.

Section DriverFacts.

Context {FS : Type}.
Variable Image_open : FS -> Path -> PyResult Image.
Variable Image_convert : Image -> string -> PyResult Image.
Variable Image_save : FS -> Image -> Path -> FS * PyResult unit.
Variable output_folder : Path.

Local Notation "'run'" :=
  (process_images Image_open Image_convert Image_save).
Local Notation "'results'" :=
  (outcomes Image_open Image_convert Image_save).
Local Notation "'step'" :=
  (process_images_step Image_open Image_convert Image_save output_folder).


Lemma outcomes_length image_files : forall fs,
  List.length (results fs image_files output_folder) = List.length image_files.
Proof.
  induction image_files as [|p ps IH]; intros fs; cbn [outcomes].
  - reflexivity.
  - destruct (add_bleed_border _ _ _ fs p output_folder) as [fs' ok].
    cbn [List.length]. rewrite IH. reflexivity.
Qed.

Lemma outcomes_paths image_files : forall fs,
  map fst (results fs image_files output_folder) = image_files.
Proof.
  induction image_files as [|p ps IH]; intros fs; cbn [outcomes].
  - reflexivity.
  - destruct (add_bleed_border _ _ _ fs p output_folder) as [fs' ok].
    cbn [map fst]. rewrite IH. reflexivity.
Qed.

Lemma count_total (l : list (Path * bool)) :
  count true l + count false l = Z.of_nat (List.length l).
Proof.
  unfold count. induction l as [|[p [|]] l IH];
    cbn [map snd count_occ List.length].
  - reflexivity.
  - destruct (bool_dec true true); [|congruence].
    destruct (bool_dec true false); [congruence|]. lia.
  - destruct (bool_dec false true); [congruence|].
    destruct (bool_dec false false); [|congruence]. lia.
Qed.

(** What [add_bleed_border] hands to [save]: the canvas of the working
    copy, under the name of the input in the output folder. *)
Lemma add_bleed_border_try_saves fs image_path raw img out :
  Image_open fs image_path = Ok raw ->
  (if String.eqb (mode raw) "RGB" then Ok raw else Image_convert raw "RGB")
  = Ok img ->
  extended_img img = Ok out ->
  add_bleed_border_try Image_open Image_convert Image_save fs image_path
    output_folder
  = Image_save fs out (path_join output_folder (path_name image_path)).
Proof.
  intros Hopen Hconv Hout. unfold add_bleed_border_try.
  rewrite Hopen. cbn [py_bind]. rewrite Hconv. cbn [py_bind].
  rewrite Hout. reflexivity.
Qed.

(** The two counters count the calls that returned [True] and [False]. *)
Lemma process_images_counters image_files : forall fs processed failed,
  exists fs',
    fold_left step image_files (fs, processed, failed)
    = (fs', processed + count true (results fs image_files output_folder),
            failed + count false (results fs image_files output_folder)).
Proof.
  unfold count.
  induction image_files as [|p ps IH]; intros fs processed failed;
    cbn [fold_left outcomes].
  - exists fs. cbn [map count_occ]. rewrite !Z.add_0_r. reflexivity.
  - unfold process_images_step at 2.
    destruct (add_bleed_border _ _ _ fs p output_folder) as [fs' [|]];
      cbn [map snd count_occ].
    + destruct (IH fs' (processed + 1) failed) as (fs2 & ->).
      exists fs2.
      destruct (bool_dec true true); [|congruence].
      destruct (bool_dec true false); [congruence|]. pair_lia.
    + destruct (IH fs' processed (failed + 1)) as (fs2 & ->).
      exists fs2.
      destruct (bool_dec false true); [congruence|].
      destruct (bool_dec false false); [|congruence]. pair_lia.
Qed.

End DriverFacts.



(* ================================================================= *)
(** * Further properties of the margin calculator *)

Module SignFacts.

Lemma with_sign_idem a b x : with_sign a (with_sign b x) = with_sign a x.
Proof. destruct x; reflexivity. Qed.

Lemma binary_round_aux_sign s m e l :
  binary_round_aux prec emax s m e l
  = with_sign s (binary_round_aux prec emax false m e l).
Proof.
  unfold binary_round_aux.
  destruct (shr_fexp prec emax m e l) as [mrs' e'].
  destruct (shr_fexp prec emax _ e' loc_Exact) as [mrs'' e''].
  destruct (shr_m mrs''); try reflexivity.
  destruct (e'' <=? emax - prec); reflexivity.
Qed.

Lemma binary_normalize_neg (p : positive) :
  binary_normalize prec emax (Z.neg p) 0 false
  = with_sign true (binary_normalize prec emax (Z.pos p) 0 false).
Proof.
  unfold binary_normalize, binary_round.
  destruct (shl_align p 0 _) as [mz ez].
  apply binary_round_aux_sign.
Qed.

Lemma binary_normalize_pos_sign (p : positive) :
  binary_normalize prec emax (Z.pos p) 0 false
  = with_sign false (binary_normalize prec emax (Z.pos p) 0 false).
Proof.
  unfold binary_normalize, binary_round.
  destruct (shl_align p 0 _) as [mz ez].
  rewrite binary_round_aux_sign at 1. reflexivity.
Qed.

Lemma SFmul_sign s x mc ec :
  SFmul prec emax (with_sign s x) (S754_finite false mc ec)
  = with_sign s (SFmul prec emax (with_sign false x) (S754_finite false mc ec)).
Proof.
  destruct x as [sx|sx| |sx mx ex]; destruct s; cbn [with_sign SFmul xorb];
    try reflexivity.
  - apply binary_round_aux_sign.
  - rewrite binary_round_aux_sign at 1. reflexivity.
Qed.

Lemma SFdiv_sign s x mc ec :
  SFdiv prec emax (with_sign s x) (S754_finite false mc ec)
  = with_sign s (SFdiv prec emax (with_sign false x) (S754_finite false mc ec)).
Proof.
  destruct x as [sx|sx| |sx mx ex]; destruct s; cbn [with_sign SFdiv xorb];
    try reflexivity.
  - destruct (SFdiv_core_binary prec emax (Z.pos mx) ex (Z.pos mc) ec)
      as [[mz ez] lz].
    apply binary_round_aux_sign.
  - destruct (SFdiv_core_binary prec emax (Z.pos mx) ex (Z.pos mc) ec)
      as [[mz ez] lz].
    rewrite binary_round_aux_sign at 1. reflexivity.
Qed.

Lemma to_int_sign x :
  to_int (with_sign true (with_sign false x))
  = neg_result (to_int (with_sign false x)).
Proof. destruct x; reflexivity. Qed.

Section Odd.

Variables (mc : positive) (ec : Z).
Local Notation "'c'" := (S754_finite false mc ec).

Lemma neg_result_invol r : neg_result (neg_result r) = r.
Proof. destruct r; cbn [neg_result]; [rewrite Z.opp_involutive|]; reflexivity. Qed.

Lemma bleed_per_side_neg_pos (p : positive) :
  bleed_per_side (Z.neg p) c = neg_result (bleed_per_side (Z.pos p) c).
Proof.
  rewrite !bleed_per_side_unfold. unfold stage_z, stage_y, stage_x, hundred.
  rewrite binary_normalize_neg.
  set (X := binary_normalize prec emax (Z.pos p) 0 false).
  assert (X = with_sign false X) as HX by apply binary_normalize_pos_sign.
  rewrite SFmul_sign, SFdiv_sign.
  rewrite <- HX.
  set (Y := SFmul prec emax X c).
  assert (Y = with_sign false Y) as HY.
  { unfold Y. rewrite HX. rewrite SFmul_sign at 1. reflexivity. }
  rewrite <- HY.
  set (Z0 := SFdiv prec emax Y (S754_finite false 7036874417766400 (-46))).
  assert (Z0 = with_sign false Z0) as HZ.
  { unfold Z0. rewrite HY. rewrite SFdiv_sign at 1. reflexivity. }
  rewrite HZ, to_int_sign, <- HZ.
  clearbody Z0. clear HY. clearbody Y. clear HX HZ. clearbody X.
  destruct X; reflexivity.
Qed.

Lemma bleed_per_side_zero : bleed_per_side 0 c = Ok 0.
Proof. reflexivity. Qed.

(** [int((-n * c) / 100) = - int((n * c) / 100)] for every integer [n]:
    every operation of the pipeline is symmetric about zero. *)
Lemma bleed_per_side_opp (n : Z) :
  bleed_per_side (- n) c = neg_result (bleed_per_side n c).
Proof.
  destruct n as [|p|p]; cbn [Z.opp].
  - reflexivity.
  - apply bleed_per_side_neg_pos.
  - rewrite bleed_per_side_neg_pos, neg_result_invol. reflexivity.
Qed.

End Odd.

End SignFacts.

Import SignFacts.

Module RangeFacts.

Local Open Scope R_scope.

(** An integer of [2^1024] or more does not convert to [float]. *)
Lemma stage_x_overflow (n : Z) :
  (2 ^ 1024 <= n)%Z -> stage_x n = S754_infinity false.
Proof.
  intros Hn.
  assert (1 <= n)%Z as H1.
  { pose proof (Z.pow_pos_nonneg 2 1024). lia. }
  destruct (binary_normalize_rounds_to n H1) as (M & E & [_ Bhi] & _ & _ & HxE).
  unfold stage_x. rewrite HxE.
  assert (972 <= E)%Z as HE.
  { assert (1024 < E + 53)%Z; [|lia]. apply pow2_lt_inv.
    apply Rle_lt_trans with (IZR n); [|exact Bhi].
    rewrite pow2_IZR by lia. apply IZR_le. exact Hn. }
  unfold finalize.
  destruct (M =? 9007199254740992)%Z.
  - destruct (Z.leb_spec (E + 1) 971); [lia|reflexivity].
  - destruct (Z.leb_spec E 971); [lia|reflexivity].
Qed.

Section AnyPercent.

Variables (mc : positive) (ec : Z).
Local Notation "'c'" := (S754_finite false mc ec).
Hypothesis c_normal : normal c.
Hypothesis c_range : 1 <= fval c <= 100.

Lemma bleed_per_side_overflow (n : Z) :
  (2 ^ 1024 <= Z.abs n)%Z -> bleed_per_side n c = Raise OverflowError.
Proof.
  intros Hn.
  assert (forall k, (2 ^ 1024 <= k)%Z -> bleed_per_side k c = Raise OverflowError)
    as Hpos.
  { intros k Hk. rewrite bleed_per_side_unfold, (stage_x_overflow k Hk).
    reflexivity. }
  destruct (Z_le_gt_dec 0 n).
  - apply Hpos. lia.
  - replace n with (- (- n))%Z by lia.
    rewrite bleed_per_side_opp, Hpos by lia. reflexivity.
Qed.

(** The pipeline raises nothing but [OverflowError]. *)
Lemma bleed_per_side_raises (n : Z) (e : PyExn) :
  bleed_per_side n c = Raise e -> e = OverflowError.
Proof.
  assert (forall k, (1 <= k)%Z -> bleed_per_side k c = Raise e ->
                    e = OverflowError) as Hpos.
  { intros k Hk H.
    destruct (bleed_per_side_run c c_normal c_range k Hk)
      as [[_ R]|[(_ & _ & R)|(_ & _ & Nz & R)]]; rewrite R in H.
    - congruence.
    - congruence.
    - destruct (to_int_floor _ Nz) as (k0 & Hk0 & _). congruence. }
  destruct n as [|p|p]; intros H.
  - rewrite bleed_per_side_zero in H. discriminate.
  - apply (Hpos (Z.pos p)); [lia|exact H].
  - change (Z.neg p) with (- Z.pos p)%Z in H.
    rewrite bleed_per_side_opp in H.
    destruct (bleed_per_side (Z.pos p) c) as [k|e'] eqn:E; [discriminate|].
    cbn [neg_result] in H. injection H as <-.
    apply (Hpos (Z.pos p)); [lia|exact E].
Qed.

(** The pipeline returns on every integer of absolute value below [2^1000]. *)
Lemma bleed_per_side_returns_abs (n : Z) :
  (Z.abs n < 2 ^ 1000)%Z -> exists k, bleed_per_side n c = Ok k.
Proof.
  intros Hn. destruct n as [|p|p].
  - exists 0%Z. apply bleed_per_side_zero.
  - apply (bleed_per_side_returns c c_normal c_range). lia.
  - destruct (bleed_per_side_returns c c_normal c_range (Z.pos p)) as (k & Hk);
      [lia|].
    exists (- k)%Z. change (Z.neg p) with (- Z.pos p)%Z.
    rewrite bleed_per_side_opp, Hk. reflexivity.
Qed.

(** The sign of the result is the sign of [n]. *)
Lemma bleed_per_side_sign (n k : Z) :
  bleed_per_side n c = Ok k ->
  ((0 <= n)%Z -> (0 <= k)%Z) /\ ((n <= 0)%Z -> (k <= 0)%Z).
Proof.
  intros H.
  assert (forall m j, (1 <= m)%Z -> bleed_per_side m c = Ok j -> (0 <= j)%Z)
    as Hpos.
  { intros m j Hm Hj.
    destruct (bleed_per_side_mono c c_normal c_range m m j ltac:(lia) Hj)
      as (j' & Hj' & B). lia. }
  destruct n as [|p|p].
  - rewrite bleed_per_side_zero in H. injection H as <-. lia.
  - split; [|lia]. intros _. apply (Hpos (Z.pos p)); [lia|exact H].
  - split; [lia|]. intros _.
    change (Z.neg p) with (- Z.pos p)%Z in H.
    rewrite bleed_per_side_opp in H.
    destruct (bleed_per_side (Z.pos p) c) as [j|] eqn:E; [|discriminate].
    cbn [neg_result] in H. injection H as <-.
    pose proof (Hpos (Z.pos p) j ltac:(lia) E). lia.
Qed.

End AnyPercent.

End RangeFacts.

Import RangeFacts.

Module BoundFacts.

Local Open Scope R_scope.

(** The result is at most the exact product, up to three roundings. *)
Lemma bleed_per_side_upper (c : spec_float) (n k : Z) :
  normal c -> 1 <= fval c <= 100 -> (1 <= n)%Z ->
  bleed_per_side n c = Ok k ->
  IZR k * 100 <= IZR n * fval c * (1 + / 1125899906842624).
Proof.
  intros Nc Hc Hn Hk.
  destruct (bleed_per_side_Ok c Nc Hc n k Hn Hk) as (Nx & Ny & Nz & Hfl & _).
  pose proof (rounds_to_error _ _ (stage_x_rounds n Hn) Nx) as [_ Ex].
  pose proof (rounds_to_error _ _ (stage_y_rounds c Nc Hc n Hn Nx) Ny) as [_ Ey].
  destruct (stage_z_rounds c Nc Hc n Hn Nx Ny) as [Rz _].
  pose proof (rounds_to_error _ _ Rz Nz) as [_ Ez].
  assert (1 <= IZR n) as Hn' by (apply IZR_le; lia).
  set (x := fval (stage_x n)) in *.
  set (y := fval (stage_y c n)) in *.
  set (z := fval (stage_z c n)) in *.
  set (P := IZR n * fval c).
  assert (x * fval c <= P + P / 9007199254740992) as Hv1.
  { unfold P.
    apply Rmult_le_compat_r with (r := fval c) in Ex; [|lra]. lra. }
  assert (0 <= P) by (unfold P; nra).
  lra.
Qed.

Lemma width_margin_bound (w k : Z) :
  (1 <= w)%Z -> bleed_per_side w WIDTH_BLEED_PERCENT = Ok k ->
  (0 <= k /\ 20 * k <= w)%Z.
Proof.
  intros Hw Hk.
  pose proof (bleed_per_side_upper _ w k normal_lit_4_84 range_lit_4_84 Hw Hk)
    as Hup.
  destruct (bleed_per_side_mono _ normal_lit_4_84 range_lit_4_84 w w k
              ltac:(lia) Hk) as (k' & _ & Hk').
  split; [lia|].
  pose proof fval_lit_4_84 as Hc.
  assert (1 <= IZR w) as Hw' by (apply IZR_le; lia).
  set (P := IZR w * fval lit_4_84) in *.
  assert (P * 1125899906842624 = IZR w * 5449355549118300) as HP
    by (unfold P; rewrite <- Hc; ring).
  apply le_IZR. rewrite mult_IZR. lra.
Qed.

Lemma height_margin_bound (h k : Z) :
  (1 <= h)%Z -> bleed_per_side h HEIGHT_BLEED_PERCENT = Ok k ->
  (0 <= k /\ 28 * k <= h)%Z.
Proof.
  intros Hh Hk.
  pose proof (bleed_per_side_upper _ h k normal_lit_3_47 range_lit_3_47 Hh Hk)
    as Hup.
  destruct (bleed_per_side_mono _ normal_lit_3_47 range_lit_3_47 h h k
              ltac:(lia) Hk) as (k' & _ & Hk').
  split; [lia|].
  pose proof fval_lit_3_47 as Hc.
  assert (1 <= IZR h) as Hh' by (apply IZR_le; lia).
  set (P := IZR h * fval lit_3_47) in *.
  assert (P * 2251799813685248 = IZR h * 7813745353487811) as HP
    by (unfold P; rewrite <- Hc; ring).
  apply le_IZR. rewrite mult_IZR. lra.
Qed.

End BoundFacts.

Import BoundFacts.

(** The margin is zero exactly up to 20 pixels of width and 28 of height. *)
Lemma width_margin_zero_iff (w k : Z) :
  1 <= w -> bleed_per_side w WIDTH_BLEED_PERCENT = Ok k ->
  (k = 0 <-> w <= 20).
Proof.
  intros Hw Hk. split.
  - intros ->. destruct (Z_le_gt_dec w 20) as [|Hgt]; [assumption|].
    destruct (bleed_per_side_mono _ normal_lit_4_84 range_lit_4_84 21 w 0
                ltac:(lia) Hk) as (k' & Hk' & B).
    vm_compute in Hk'. injection Hk' as <-. lia.
  - intros H20.
    rewrite bleed_per_side_width_exact in Hk by lia.
    injection Hk as <-. apply Z.div_small. lia.
Qed.

Lemma height_margin_zero_iff (h k : Z) :
  1 <= h -> bleed_per_side h HEIGHT_BLEED_PERCENT = Ok k ->
  (k = 0 <-> h <= 28).
Proof.
  intros Hh Hk. split.
  - intros ->. destruct (Z_le_gt_dec h 28) as [|Hgt]; [assumption|].
    destruct (bleed_per_side_mono _ normal_lit_3_47 range_lit_3_47 29 h 0
                ltac:(lia) Hk) as (k' & Hk' & B).
    vm_compute in Hk'. injection Hk' as <-. lia.
  - intros H28.
    rewrite bleed_per_side_height_exact in Hk by lia.
    injection Hk as <-. apply Z.div_small. lia.
Qed.

(** X1.  For positive dimensions on which it returns,
    [calculate_bleed_pixels] gives equal top and bottom margins and equal left
    and right margins, none of them negative; a horizontal margin is at most a
    twentieth of the width and a vertical margin at most one part in
    twenty-eight of the height. *)
Theorem margins_within_five_percent (width height top bottom left_ right_ : Z) :
  1 <= width -> 1 <= height ->
  calculate_bleed_pixels width height = Ok (top, bottom, left_, right_) ->
  bottom = top /\ right_ = left_ /\
  0 <= left_ /\ 20 * left_ <= width /\
  0 <= top /\ 28 * top <= height.
Proof.
  intros Hw Hh H.
  destruct (calculate_bleed_pixels_inv _ _ _ _ _ _ H) as (Hl & Ht & -> & ->).
  pose proof (width_margin_bound width left_ Hw Hl).
  pose proof (height_margin_bound height top Hh Ht).
  lia.
Qed.

Lemma width_percent_opp n :
  bleed_per_side (- n) WIDTH_BLEED_PERCENT
  = neg_result (bleed_per_side n WIDTH_BLEED_PERCENT).
Proof. apply bleed_per_side_opp. Qed.

Lemma height_percent_opp n :
  bleed_per_side (- n) HEIGHT_BLEED_PERCENT
  = neg_result (bleed_per_side n HEIGHT_BLEED_PERCENT).
Proof. apply bleed_per_side_opp. Qed.

(** X2.  [calculate_bleed_pixels] is odd: on the opposite dimensions it
    returns the opposite margins, and it raises on [(-width, -height)] what it
    raises on [(width, height)]; [int] truncates toward zero and every float
    operation is symmetric about zero. *)
Theorem calculate_bleed_pixels_odd (width height : Z) :
  calculate_bleed_pixels (- width) (- height)
  = neg_margins (calculate_bleed_pixels width height).
Proof.
  unfold calculate_bleed_pixels.
  rewrite width_percent_opp, height_percent_opp.
  destruct (bleed_per_side width WIDTH_BLEED_PERCENT) as [l|e]; [|reflexivity].
  destruct (bleed_per_side height HEIGHT_BLEED_PERCENT) as [t|e];
    reflexivity.
Qed.

Lemma calculate_bleed_pixels_returns_abs (width height : Z) :
  Z.abs width < 2 ^ 1000 -> Z.abs height < 2 ^ 1000 ->
  exists top left_,
    calculate_bleed_pixels width height = Ok (top, top, left_, left_).
Proof.
  intros Hw Hh.
  destruct (bleed_per_side_returns_abs _ _ normal_lit_4_84 range_lit_4_84
              width Hw) as (l & Hl).
  destruct (bleed_per_side_returns_abs _ _ normal_lit_3_47 range_lit_3_47
              height Hh) as (t & Ht).
  exists t, l. unfold calculate_bleed_pixels.
  unfold WIDTH_BLEED_PERCENT, HEIGHT_BLEED_PERCENT, lit_4_84, lit_3_47.
  rewrite Hl, Ht. reflexivity.
Qed.

(** X3.  On all integers of absolute value below [2^1000] the calculator
    returns, and each margin has the sign of the dimension it comes from. *)
Theorem calculate_bleed_pixels_total_below_2_1000 (width height : Z) :
  Z.abs width < 2 ^ 1000 -> Z.abs height < 2 ^ 1000 ->
  exists top left_,
    calculate_bleed_pixels width height = Ok (top, top, left_, left_) /\
    (0 <= width -> 0 <= left_) /\ (width <= 0 -> left_ <= 0) /\
    (0 <= height -> 0 <= top) /\ (height <= 0 -> top <= 0).
Proof.
  intros Hw Hh.
  destruct (calculate_bleed_pixels_returns_abs width height Hw Hh)
    as (t & l & H).
  exists t, l. split; [exact H|].
  destruct (calculate_bleed_pixels_inv _ _ _ _ _ _ H) as (Hl & Ht & _).
  destruct (bleed_per_side_sign _ _ normal_lit_4_84 range_lit_4_84 _ _ Hl).
  destruct (bleed_per_side_sign _ _ normal_lit_3_47 range_lit_3_47 _ _ Ht).
  auto.
Qed.

Lemma calculate_bleed_pixels_total_below_2_1000_witness :
  exists top left_,
    calculate_bleed_pixels (-750) 1050 = Ok (top, top, left_, left_) /\
    (0 <= -750 -> 0 <= left_) /\ (-750 <= 0 -> left_ <= 0) /\
    (0 <= 1050 -> 0 <= top) /\ (1050 <= 0 -> top <= 0).
Proof.
  apply (calculate_bleed_pixels_total_below_2_1000 (-750) 1050);
    vm_compute; reflexivity.
Defined.

(** X4.  [OverflowError] is the only exception that
    [calculate_bleed_pixels] raises, never [ZeroDivisionError] or
    [ValueError], and it raises it whenever a dimension has an absolute value
    of [2^1024] or more. *)
Theorem calculate_bleed_pixels_overflow_only (width height : Z) :
  (forall e, calculate_bleed_pixels width height = Raise e ->
             e = OverflowError) /\
  (2 ^ 1024 <= Z.abs width \/ 2 ^ 1024 <= Z.abs height ->
   calculate_bleed_pixels width height = Raise OverflowError).
Proof.
  assert (forall e, calculate_bleed_pixels width height = Raise e ->
                    e = OverflowError) as Honly.
  { intros e. unfold calculate_bleed_pixels.
    destruct (bleed_per_side width WIDTH_BLEED_PERCENT) as [l|e1] eqn:E1;
      cbn [py_bind].
    - destruct (bleed_per_side height HEIGHT_BLEED_PERCENT) as [t|e2] eqn:E2;
        cbn [py_bind]; [discriminate|].
      intros [= <-].
      apply (bleed_per_side_raises _ _ normal_lit_3_47 range_lit_3_47 height).
      exact E2.
    - intros [= <-].
      apply (bleed_per_side_raises _ _ normal_lit_4_84 range_lit_4_84 width).
      exact E1. }
  split; [exact Honly|].
  intros Hbig.
  destruct (calculate_bleed_pixels width height) as [m|e] eqn:E.
  - exfalso. destruct m as [[[t b] l] r].
    destruct (calculate_bleed_pixels_inv _ _ _ _ _ _ E) as (Hl & Ht & _).
    destruct Hbig as [Hbig|Hbig].
    + pose proof (bleed_per_side_overflow 5449355549118300 (-50) width Hbig)
        as R.
      unfold WIDTH_BLEED_PERCENT, lit_4_84 in Hl. congruence.
    + pose proof (bleed_per_side_overflow 7813745353487811 (-51) height Hbig)
        as R.
      unfold HEIGHT_BLEED_PERCENT, lit_3_47 in Ht. congruence.
  - f_equal. apply Honly. reflexivity.
Qed.

(** X5.  The margins vanish exactly on small images: for positive
    dimensions the horizontal margins are 0 if and only if the width is at
    most 20, and the vertical margins if and only if the height is at
    most 28. *)
Theorem zero_margin_thresholds (width height top bottom left_ right_ : Z) :
  1 <= width -> 1 <= height ->
  calculate_bleed_pixels width height = Ok (top, bottom, left_, right_) ->
  (left_ = 0 <-> width <= 20) /\ (right_ = 0 <-> width <= 20) /\
  (top = 0 <-> height <= 28) /\ (bottom = 0 <-> height <= 28).
Proof.
  intros Hw Hh H.
  destruct (calculate_bleed_pixels_inv _ _ _ _ _ _ H) as (Hl & Ht & -> & ->).
  pose proof (width_margin_zero_iff width left_ Hw Hl).
  pose proof (height_margin_zero_iff height top Hh Ht).
  tauto.
Qed.

Lemma zero_margin_thresholds_witness :
  (1 = 0 <-> 21 <= 20) /\ (1 = 0 <-> 21 <= 20) /\
  (0 = 0 <-> 28 <= 28) /\ (0 = 0 <-> 28 <= 28).
Proof.
  apply (zero_margin_thresholds 21 28 0 0 1 1);
    [lia | lia | vm_compute; reflexivity].
Defined.

Lemma margins_within_five_percent_witness :
  36 = 36 /\ 36 = 36 /\ 0 <= 36 /\ 20 * 36 <= 750 /\ 0 <= 36 /\ 28 * 36 <= 1050.
Proof.
  apply (margins_within_five_percent 750 1050 36 36 36 36);
    [lia | lia | vm_compute; reflexivity].
Defined.

(* ================================================================= *)
(** * Further properties of the canvas *)

Module CanvasFacts.

Lemma wf_paste dst src p :
  0 <= width dst -> 0 <= height dst -> wf (paste dst src p).
Proof. destruct p. intros Hw Hh. unfold paste. apply wf_tabulate; assumption. Qed.

Lemma wf_paste_rows edge x0 ys : forall ext,
  wf ext -> wf (fold_left (fun e y => paste e edge (x0, y)) ys ext).
Proof.
  induction ys as [|y0 ys IH]; intros ext Hwf; cbn [fold_left].
  - exact Hwf.
  - apply IH. destruct Hwf as (Hw & Hh & _). apply wf_paste; assumption.
Qed.

Lemma wf_paste_cols edge y0 xs : forall ext,
  wf ext -> wf (fold_left (fun e x => paste e edge (x, y0)) xs ext).
Proof.
  induction xs as [|x0 xs IH]; intros ext Hwf; cbn [fold_left].
  - exact Hwf.
  - apply IH. destruct Hwf as (Hw & Hh & _). apply wf_paste; assumption.
Qed.

Lemma wf_paste_and_extend canvas img top bottom left_ right_ :
  0 <= width canvas -> 0 <= height canvas ->
  wf (paste_and_extend canvas img top bottom left_ right_).
Proof.
  intros Hw Hh. unfold paste_and_extend, size.
  unfold extend_right. destruct (0 <? right_); [apply wf_paste_cols|];
    (unfold extend_left; destruct (0 <? left_); [apply wf_paste_cols|]);
    (unfold extend_bottom; destruct (0 <? bottom); [apply wf_paste_rows|]);
    (unfold extend_top; destruct (0 <? top); [apply wf_paste_rows|]);
    apply wf_paste; assumption.
Qed.

(** An image is determined by its mode, its size and its pixels. *)
Lemma image_ext (a b : Image) :
  wf a -> wf b -> mode a = mode b -> width a = width b ->
  height a = height b ->
  (forall x y, 0 <= x < width a -> 0 <= y < height a ->
     load a x y = load b x y) ->
  a = b.
Proof.
  intros Ha Hb Hm Hw Hh Hpx.
  pose proof (tabulate_load a Ha) as Da.
  pose proof (tabulate_load b Hb) as Db.
  rewrite (tabulate_ext _ _ _ (load b) Hpx), Hw, Hh, Db in Da.
  destruct a, b. cbn in *. congruence.
Qed.

End CanvasFacts.

Import CanvasFacts.

Section BleedMore.

Variables (img : Image) (top bottom left_ right_ : Z).
Hypothesis img_rgb : rgb_image img.
Hypothesis margins :
  calculate_bleed_pixels (width img) (height img)
  = Ok (top, bottom, left_, right_).

Local Notation "'new_width'" := (width img + left_ + right_).
Local Notation "'new_height'" := (height img + top + bottom).

(** The output of the body, with everything the later statements need. *)
Lemma extended_img_out :
  exists out,
    extended_img img = Ok out /\ wf out /\ mode out = "RGB"%string /\
    width out = new_width /\ height out = new_height /\
    forall x y, 0 <= x < new_width -> 0 <= y < new_height ->
      load out x y = load img (clamp 0 (width img - 1) (x - left_))
                              (clamp 0 (height img - 1) (y - top)).
Proof.
  pose proof (img_pos img img_rgb) as Hpos.
  pose proof (margins_nonneg img top bottom left_ right_ img_rgb margins) as Hm.
  destruct (new_Ok "RGB" new_width new_height)
    as (canvas & Hnew & Hw & Hh & Hmode & _); try lia.
  exists (paste_and_extend canvas img top bottom left_ right_).
  destruct (paste_and_extend_size canvas img top bottom left_ right_ Hw Hh)
    as (Sw & Sh & Sm).
  split; [|split; [|split; [|split; [|split]]]].
  - unfold extended_img, size. rewrite margins. cbn [py_bind].
    rewrite Hnew. reflexivity.
  - apply wf_paste_and_extend; lia.
  - rewrite Sm. exact Hmode.
  - exact Sw.
  - exact Sh.
  - intros x y Hx Hy. apply load_paste_and_extend; assumption.
Qed.

End BleedMore.





Lemma extended_img_inv (img out : Image) :
  extended_img img = Ok out ->
  exists top left_,
    calculate_bleed_pixels (width img) (height img)
    = Ok (top, top, left_, left_).
Proof.
  unfold extended_img, size. intros H.
  destruct (calculate_bleed_pixels (width img) (height img))
    as [[[[t b] l] r]|e] eqn:Hm; [|discriminate].
  destruct (calculate_bleed_pixels_inv _ _ _ _ _ _ Hm) as (_ & _ & -> & ->).
  exists t, l. reflexivity.
Qed.

(** X8.  Cropping the box [(left, top, left + width, top + height)] out of
    the canvas gives the working copy back as an image: mode, size and
    buffer. *)
Theorem crop_center_round_trip (img out : Image) (top bottom left_ right_ : Z) :
  rgb_image img ->
  calculate_bleed_pixels (width img) (height img)
  = Ok (top, bottom, left_, right_) ->
  extended_img img = Ok out ->
  crop out (left_, top, left_ + width img, top + height img) = img.
Proof.
  intros Hrgb Hm Hout.
  destruct (extended_img_out img top bottom left_ right_ Hrgb Hm)
    as (out' & Hout' & Hwf & Hmode & Sw & Sh & Hpx).
  rewrite Hout in Hout'. injection Hout' as <-.
  pose proof (img_pos img Hrgb) as [Hw1 Hh1].
  pose proof (margins_nonneg img top bottom left_ right_ Hrgb Hm)
    as (? & ? & ? & ?).
  destruct Hrgb as (Hwfi & Hmodei & _).
  apply image_ext.
  - unfold crop. apply wf_tabulate; lia.
  - exact Hwfi.
  - cbn [crop mode]. congruence.
  - cbn [crop width]. lia.
  - cbn [crop height]. lia.
  - intros x y Hx Hy. cbn [crop width height] in Hx, Hy.
    rewrite load_crop by lia. rewrite Hpx by lia.
    unfold clamp. f_equal; lia.
Qed.

Lemma crop_center_round_trip_witness :
  crop test_card_out (1, 1, 1 + width test_card, 1 + height test_card)
  = test_card.
Proof.
  apply (crop_center_round_trip test_card _ 1 1 1 1).
  - unfold rgb_image, wf. simpl. repeat split; try lia; repeat constructor.
  - vm_compute. reflexivity.
  - vm_compute. reflexivity.
Defined.

(** X9.  The canvas is the working copy itself exactly when the width is at
    most 20 and the height at most 28; the width is unchanged exactly when it
    is at most 20, and the height exactly when it is at most 28. *)
Theorem extended_img_fixed_point (img out : Image) :
  rgb_image img -> extended_img img = Ok out ->
  (out = img <-> width img <= 20 /\ height img <= 28) /\
  (width out = width img <-> width img <= 20) /\
  (height out = height img <-> height img <= 28).
Proof.
  intros Hrgb Hout.
  destruct (extended_img_inv img out Hout) as (t & l & Hm).
  destruct (extended_img_out img t t l l Hrgb Hm)
    as (out' & Hout' & Hwf & Hmode & Sw & Sh & Hpx).
  rewrite Hout in Hout'. injection Hout' as <-.
  pose proof (img_pos img Hrgb) as [Hw1 Hh1].
  pose proof (margins_nonneg img t t l l Hrgb Hm) as (? & _ & ? & _).
  destruct (calculate_bleed_pixels_inv _ _ _ _ _ _ Hm) as (Hl & Ht & _).
  pose proof (width_margin_zero_iff _ _ Hw1 Hl) as Zl.
  pose proof (height_margin_zero_iff _ _ Hh1 Ht) as Zt.
  assert (width out = width img <-> width img <= 20) as Ew
    by (rewrite Sw, <- Zl; lia).
  assert (height out = height img <-> height img <= 28) as Eh
    by (rewrite Sh, <- Zt; lia).
  split; [|split; assumption].
  split.
  - intros ->. split; [apply Ew|apply Eh]; reflexivity.
  - intros [H20 H28].
    apply Zl in H20. apply Zt in H28. subst l t.
    destruct Hrgb as (Hwfi & Hmodei & _).
    apply image_ext; try assumption; try congruence; try lia.
    intros x y Hx Hy. rewrite Hpx by lia. unfold clamp. f_equal; lia.
Qed.

Lemma extended_img_fixed_point_witness :
  (tiny_card = tiny_card <-> width tiny_card <= 20 /\ height tiny_card <= 28) /\
  (width tiny_card = width tiny_card <-> width tiny_card <= 20) /\
  (height tiny_card = height tiny_card <-> height tiny_card <= 28).
Proof.
  apply (extended_img_fixed_point tiny_card tiny_card).
  - unfold rgb_image, wf. simpl. repeat split; try lia; repeat constructor.
  - vm_compute. reflexivity.
Defined.

(** X10.  Over the full width of the canvas, corners included, every row of
    the top margin equals row [top] of the canvas and every row of the bottom
    margin equals row [top + height - 1]: the canvas is what filling the rows
    last would give, although the code fills the columns last. *)
Theorem margin_rows_replicate (img out : Image) (top bottom left_ right_ : Z) :
  rgb_image img ->
  calculate_bleed_pixels (width img) (height img)
  = Ok (top, bottom, left_, right_) ->
  extended_img img = Ok out ->
  (forall x y, 0 <= x < width out -> 0 <= y < top ->
     getpixel out (x, y) = getpixel out (x, top)) /\
  (forall x y, 0 <= x < width out -> top + height img <= y < height out ->
     getpixel out (x, y) = getpixel out (x, top + height img - 1)).
Proof.
  intros Hrgb Hm Hout.
  destruct (extended_img_out img top bottom left_ right_ Hrgb Hm)
    as (out' & Hout' & Hwf & Hmode & Sw & Sh & Hpx).
  rewrite Hout in Hout'. injection Hout' as <-.
  pose proof (img_pos img Hrgb) as [Hw1 Hh1].
  pose proof (margins_nonneg img top bottom left_ right_ Hrgb Hm)
    as (? & ? & ? & ?).
  split; intros x y Hx Hy;
    rewrite !getpixel_load by lia;
    rewrite !Hpx by lia; unfold clamp; f_equal; f_equal; lia.
Qed.

Lemma margin_rows_replicate_witness :
  getpixel test_card_out (0, 0) = getpixel test_card_out (0, 1) /\
  getpixel test_card_out (22, 30)
  = getpixel test_card_out (22, 1 + height test_card - 1).
Proof.
  destruct (margin_rows_replicate test_card test_card_out 1 1 1 1) as [T B].
  - unfold rgb_image, wf. simpl. repeat split; try lia; repeat constructor.
  - vm_compute. reflexivity.
  - vm_compute. reflexivity.
  - split; [apply (T 0 0); vm_compute; split; (discriminate || reflexivity)
           |apply (B 22 30); vm_compute; split; (discriminate || reflexivity)].
Defined.

(* ================================================================= *)
(** * Further properties of the batch driver *)

Section DriverMore.

Context {FS : Type}.
Variable Image_open : FS -> Path -> PyResult Image.
Variable Image_convert : Image -> string -> PyResult Image.
Variable Image_save : FS -> Image -> Path -> FS * PyResult unit.
Variable output_folder : Path.

Local Notation "'run'" :=
  (process_images Image_open Image_convert Image_save).
Local Notation "'results'" :=
  (outcomes Image_open Image_convert Image_save).
Local Notation "'step'" :=
  (process_images_step Image_open Image_convert Image_save output_folder).
Local Notation "'border'" :=
  (add_bleed_border Image_open Image_convert Image_save).

Lemma count_nonneg b (l : list (Path * bool)) : 0 <= count b l.
Proof. unfold count. lia. Qed.

(** The counters only add to what they held when the loop started. *)
Lemma process_images_shift image_files : forall fs processed failed,
  fold_left step image_files (fs, processed, failed)
  = (let '(fs', p, f) := fold_left step image_files (fs, 0, 0) in
     (fs', processed + p, failed + f)).
Proof.
  induction image_files as [|a l IH]; intros fs p f; cbn [fold_left].
  - pair_lia.
  - unfold process_images_step at 2 4.
    destruct (add_bleed_border _ _ _ fs a output_folder) as [fs1 [|]].
    + rewrite (IH fs1 (p + 1) f), (IH fs1 (0 + 1) 0).
      destruct (fold_left step l (fs1, 0, 0)) as [[fs2 p2] f2]. pair_lia.
    + rewrite (IH fs1 p (f + 1)), (IH fs1 0 (0 + 1)).
      destruct (fold_left step l (fs1, 0, 0)) as [[fs2 p2] f2]. pair_lia.
Qed.

(** X11.  When the file decodes, and converts where needed, to an RGB
    working copy with dimensions below [2^1000], [add_bleed_border] calls
    [save] with the canvas on [output_folder / image_path.name] and returns
    [True] exactly when [save] completes: nothing else makes it fail. *)
Theorem add_bleed_border_decodable (fs : FS) (image_path : Path)
    (raw img : Image) :
  Image_open fs image_path = Ok raw ->
  (if String.eqb (mode raw) "RGB" then Ok raw else Image_convert raw "RGB")
  = Ok img ->
  rgb_image img -> width img < 2 ^ 1000 -> height img < 2 ^ 1000 ->
  exists out,
    extended_img img = Ok out /\
    border fs image_path output_folder
    = (fst (Image_save fs out (path_join output_folder (path_name image_path))),
       completed
         (snd (Image_save fs out
                 (path_join output_folder (path_name image_path))))).
Proof.
  intros Hopen Hconv Hrgb Hw Hh.
  pose proof (img_pos img Hrgb) as [Hw1 Hh1].
  destruct (calculate_bleed_pixels_returns (width img) (height img))
    as ([[[t b] l] r] & Hm); [lia|lia|].
  destruct (extended_img_out img t b l r Hrgb Hm) as (out & Hout & _).
  exists out. split; [exact Hout|].
  unfold add_bleed_border.
  rewrite (add_bleed_border_try_saves Image_open Image_convert Image_save
             output_folder fs image_path raw img out Hopen Hconv Hout).
  destruct (Image_save fs out _) as [fs' [u|e]]; reflexivity.
Qed.



(** X14.  Processing [files1 ++ files2] is processing [files1] and then
    [files2] on the file system that the first run left; the counters add
    up. *)
Theorem process_images_app (fs : FS) (files1 files2 : list Path) :
  run fs (files1 ++ files2) output_folder
  = (let '(fs1, processed1, failed1) := run fs files1 output_folder in
     let '(fs2, processed2, failed2) := run fs1 files2 output_folder in
     (fs2, processed1 + processed2, failed1 + failed2)).
Proof.
  unfold process_images. rewrite fold_left_app.
  destruct (fold_left step files1 (fs, 0, 0)) as [[fs1 p1] f1].
  apply process_images_shift.
Qed.

End DriverMore.

Lemma add_bleed_border_decodable_witness :
  exists out,
    extended_img test_card = Ok out /\
    add_bleed_border toy_open toy_convert toy_save tt ["in"; "a.png"]%string
      ["out"%string]
    = (fst (toy_save tt out
              (path_join ["out"%string]
                 (path_name ["in"; "a.png"]%string))),
       completed
         (snd (toy_save tt out
                 (path_join ["out"%string]
                    (path_name ["in"; "a.png"]%string))))).
Proof.
  apply (add_bleed_border_decodable toy_open toy_convert toy_save
           ["out"%string] tt ["in"; "a.png"]%string test_card test_card).
  - reflexivity.
  - reflexivity.
  - unfold rgb_image, wf. simpl. repeat split; try lia; repeat constructor.
  - vm_compute. reflexivity.
  - vm_compute. reflexivity.
Defined.


(* ================================================================= *)
(** * Properties of the progress bar *)

Lemma filled_length_range i total_files :
  1 <= i <= total_files ->
  0 <= bar_length * i / total_files <= bar_length /\
  (bar_length * i / total_files = bar_length <-> i = total_files).
Proof.
  intros H. unfold bar_length.
  assert (0 <= 30 * i / total_files) by (apply Z.div_pos; lia).
  assert (30 * i / total_files <= 30).
  { apply Z.div_le_upper_bound; lia. }
  split; [lia|]. split.
  - intros E.
    assert (total_files * (30 * i / total_files) <= 30 * i)
      by (apply Z.mul_div_le; lia).
    nia.
  - intros ->. apply Z.div_mul. lia.
Qed.

(** X15.  For [1 <= i <= total_files] the bar is built without a division
    by zero, is 30 characters long, holds [30 * i // total_files] full blocks,
    and consists of full blocks only exactly at the last file. *)
Theorem progress_bar_shape (i total_files : Z) :
  1 <= i <= total_files ->
  exists shown,
    bar i total_files = Ok shown /\
    List.length shown = 30%nat /\
    Z.of_nat (count_occ N.eq_dec shown FULL_BLOCK) = 30 * i / total_files /\
    (Forall (N.eq FULL_BLOCK) shown <-> i = total_files).
Proof.
  intros H. destruct (filled_length_range i total_files H) as [[Hlo Hhi] Hfull].
  unfold bar_length in *.
  unfold bar, filled_length.
  replace (total_files =? 0) with false by (symmetry; apply Z.eqb_neq; lia).
  cbn [py_bind]. eexists; split; [reflexivity|].
  unfold bar_length, str_mul.
  set (k := 30 * i / total_files) in *.
  split; [|split].
  - rewrite length_app, !repeat_length. lia.
  - rewrite count_occ_app, count_occ_repeat_eq by reflexivity.
    rewrite count_occ_repeat_neq by discriminate. lia.
  - rewrite <- Hfull. split.
    + intros HF. apply Forall_app in HF. destruct HF as [_ HF].
      destruct (Z.to_nat (30 - k)) eqn:E; [lia|].
      cbn [repeat] in HF. inversion HF as [|? ? Hd _]. discriminate Hd.
    + intros ->. replace (30 - 30) with 0 by lia. cbn [Z.to_nat repeat].
      rewrite app_nil_r. apply Forall_forall. intros c Hc.
      apply repeat_spec in Hc. subst c. reflexivity.
Qed.

Lemma progress_bar_shape_witness :
  exists shown,
    bar 2 3 = Ok shown /\
    List.length shown = 30%nat /\
    Z.of_nat (count_occ N.eq_dec shown FULL_BLOCK) = 30 * 2 / 3 /\
    (Forall (N.eq FULL_BLOCK) shown <-> 2 = 3).
Proof. apply (progress_bar_shape 2 3). lia. Defined.

(** X16.  In one run the bars never shrink: of two frames shown, the later
    holds at least as many full blocks, at most 30, and 30 exactly when it is
    the frame of the last file. *)
Theorem progress_frames_grow (image_files : list Path) (i j : nat) :
  (i <= j < List.length image_files)%nat ->
  exists a b,
    nth i (progress_frames image_files) (Raise ZeroDivisionError)
    = Ok (str_mul FULL_BLOCK a ++ str_mul LIGHT_SHADE (30 - a)) /\
    nth j (progress_frames image_files) (Raise ZeroDivisionError)
    = Ok (str_mul FULL_BLOCK b ++ str_mul LIGHT_SHADE (30 - b)) /\
    0 <= a <= b /\ b <= 30 /\
    (b = 30 <-> S j = List.length image_files).
Proof.
  intros H. set (n := Z.of_nat (List.length image_files)).
  assert (forall k, (k < List.length image_files)%nat ->
            nth k (progress_frames image_files) (Raise ZeroDivisionError)
            = Ok (str_mul FULL_BLOCK (30 * (1 + Z.of_nat k) / n)
                  ++ str_mul LIGHT_SHADE (30 - 30 * (1 + Z.of_nat k) / n)))
    as Hnth.
  { intros k Hk. unfold progress_frames. fold n.
    rewrite (nth_indep _ _ (bar 0 n))
      by (rewrite length_map, range_length; lia).
    rewrite (map_nth (fun i => bar i n)).
    rewrite <- (Nat2Z.id k) at 1. rewrite range_nth by lia.
    unfold bar, filled_length.
    replace (n =? 0) with false by (symmetry; apply Z.eqb_neq; lia).
    reflexivity. }
  exists (30 * (1 + Z.of_nat i) / n), (30 * (1 + Z.of_nat j) / n).
  split; [apply Hnth; lia|]. split; [apply Hnth; lia|].
  destruct (filled_length_range (1 + Z.of_nat i) n ltac:(lia)) as [[A1 A2] _].
  destruct (filled_length_range (1 + Z.of_nat j) n ltac:(lia)) as [[B1 B2] B3].
  unfold bar_length in *.
  split; [|split; [lia|]].
  - split; [lia|]. apply Z.div_le_mono; lia.
  - rewrite B3. lia.
Qed.

Lemma progress_frames_grow_witness :
  exists a b,
    nth 0 (progress_frames toy_files) (Raise ZeroDivisionError)
    = Ok (str_mul FULL_BLOCK a ++ str_mul LIGHT_SHADE (30 - a)) /\
    nth 2 (progress_frames toy_files) (Raise ZeroDivisionError)
    = Ok (str_mul FULL_BLOCK b ++ str_mul LIGHT_SHADE (30 - b)) /\
    0 <= a <= b /\ b <= 30 /\
    (b = 30 <-> 3%nat = List.length toy_files).
Proof. apply (progress_frames_grow toy_files 0 2). simpl. lia. Defined.

(* ================================================================= *)
(** * Properties of the folder scan *)

Module NameFacts.

Local Open Scope string_scope.
Local Open Scope nat_scope.

Lemma ascii_lower_dot c : Ascii.eqb (ascii_lower c) "." = Ascii.eqb c ".".
Proof.
  destruct c as [[] [] [] [] [] [] [] []]; reflexivity.
Qed.

Lemma has_dot_lower s : has_dot (lower s) = has_dot s.
Proof.
  induction s as [|c s IH]; cbn [lower has_dot]; [reflexivity|].
  rewrite ascii_lower_dot, IH. reflexivity.
Qed.

Lemma rfind_dot_none s : rfind_dot s = None <-> has_dot s = false.
Proof.
  induction s as [|c s IH]; cbn [rfind_dot has_dot]; [tauto|].
  destruct (rfind_dot s) as [i|].
  - destruct (has_dot s); [|destruct IH as [_ IH]; discriminate IH; reflexivity].
    rewrite orb_true_r. split; discriminate.
  - destruct IH as [IH _]. rewrite (IH eq_refl), orb_false_r.
    destruct (Ascii.eqb c "."); split; intros; (discriminate || reflexivity).
Qed.

Lemma rfind_dot_app stem rest :
  has_dot rest = false ->
  rfind_dot (stem ++ String "." rest) = Some (String.length stem).
Proof.
  intros Hr. induction stem as [|c stem IH]; cbn [append rfind_dot String.length].
  - apply rfind_dot_none in Hr. rewrite Hr. reflexivity.
  - rewrite IH. reflexivity.
Qed.

Lemma length_append (a b : string) :
  String.length (a ++ b) = String.length a + String.length b.
Proof. induction a as [|c a IH]; cbn; [reflexivity|]. rewrite IH. reflexivity. Qed.

Lemma substring_all s : substring 0 (String.length s) s = s.
Proof. induction s as [|c s IH]; cbn; [reflexivity|]. rewrite IH. reflexivity. Qed.

Lemma substring_append_skip a b n :
  substring (String.length a) n (a ++ b) = substring 0 n b.
Proof. induction a as [|c a IH]; cbn; [reflexivity|]. exact IH. Qed.

(** What [rfind] returns is the position of a dot with no dot after it. *)
Lemma rfind_dot_split name i :
  rfind_dot name = Some i ->
  exists stem rest,
    name = stem ++ String "." rest /\ String.length stem = i /\
    has_dot rest = false.
Proof.
  revert i. induction name as [|c name IH]; cbn [rfind_dot]; [discriminate|].
  intros i. destruct (rfind_dot name) as [j|] eqn:E.
  - intros [= <-]. destruct (IH j eq_refl) as (stem & rest & -> & <- & Hr).
    exists (String c stem), rest. repeat split. exact Hr.
  - destruct (Ascii.eqb_spec c "."); [|discriminate].
    intros [= <-]. subst c. exists EmptyString, name. repeat split.
    apply rfind_dot_none. exact E.
Qed.

Lemma suffix_app stem rest :
  stem <> EmptyString -> rest <> EmptyString -> has_dot rest = false ->
  suffix (stem ++ String "." rest) = String "." rest.
Proof.
  intros Hs Hr Hd. unfold suffix. rewrite (rfind_dot_app stem rest Hd).
  rewrite length_append. cbn [String.length].
  destruct stem as [|c stem]; [congruence|].
  destruct rest as [|d rest]; [congruence|].
  cbn [String.length].
  replace (0 <? S (String.length stem)) with true
    by (symmetry; apply Nat.ltb_lt; lia).
  replace (S (String.length stem) <?
           S (String.length stem) + S (S (String.length rest)) - 1)
    with true by (symmetry; apply Nat.ltb_lt; lia).
  cbn [andb].
  replace (S (String.length stem) + S (S (String.length rest))
           - S (String.length stem)) with (String.length (String "." (String d rest)))
    by (cbn [String.length]; lia).
  change (S (String.length stem)) with (String.length (String c stem)).
  rewrite substring_append_skip. apply substring_all.
Qed.

(** A suffix, when there is one, is the last dot of the name and what
    follows it; something precedes the dot and something follows it. *)
Lemma suffix_inv name :
  suffix name <> EmptyString ->
  exists stem rest,
    name = stem ++ String "." rest /\ stem <> EmptyString /\
    rest <> EmptyString /\
    has_dot rest = false /\ suffix name = String "." rest.
Proof.
  intros Hne. unfold suffix in Hne.
  destruct (rfind_dot name) as [i|] eqn:E; [|congruence].
  destruct (rfind_dot_split name i E) as (stem & rest & -> & <- & Hd).
  rewrite length_append in Hne. cbn [String.length] in Hne.
  destruct (Nat.ltb_spec 0 (String.length stem)) as [Hs|];
    [|cbn [andb] in Hne; congruence].
  destruct (Nat.ltb_spec (String.length stem)
              (String.length stem + S (String.length rest) - 1)) as [Hr|];
    [|cbn [andb] in Hne; congruence].
  assert (stem <> EmptyString) as Hs'
    by (destruct stem; [cbn in Hs; lia|discriminate]).
  assert (rest <> EmptyString) as Hr'
    by (destruct rest; [cbn in Hr; lia|discriminate]).
  exists stem, rest. repeat split; try assumption.
  apply suffix_app; assumption.
Qed.

Lemma existsb_eqb_In (s : string) (l : list string) :
  existsb (String.eqb s) l = true <-> In s l.
Proof.
  rewrite existsb_exists. split.
  - intros (x & Hin & Heq). apply String.eqb_eq in Heq. subst x. exact Hin.
  - intros Hin. exists s. split; [exact Hin|apply String.eqb_refl].
Qed.

Lemma extension_names_no_dot s :
  In s extension_names -> has_dot s = false /\ s <> EmptyString.
Proof.
  unfold extension_names. cbn [In].
  intros [<-|[<-|[<-|[<-|[<-|[<-|[<-|[]]]]]]]]; split;
    (reflexivity || discriminate).
Qed.

Lemma image_extensions_names s :
  In (String "." s) image_extensions <-> In s extension_names.
Proof.
  unfold image_extensions, extension_names. cbn [In].
  split; intros H;
    repeat (destruct H as [H|H];
            [first [injection H as <-; tauto | subst s; tauto]|]);
    destruct H.
Qed.

Lemma lower_nonempty s : lower s = EmptyString <-> s = EmptyString.
Proof. destruct s; cbn [lower]; split; (discriminate || reflexivity). Qed.

End NameFacts.

Import NameFacts.

(** X17.  [find_image_files] returns the entries of the listing that are
    files with an image suffix, in the order of the listing and each as often
    as the listing holds it; it raises what the listing raises. *)
Theorem find_image_files_filter {FS : Type}
    (rglob : FS -> Path -> PyResult (list Path)) (is_file : FS -> Path -> bool)
    (fs : FS) (input_folder : Path) :
  find_image_files rglob is_file fs input_folder
  = (listing <- rglob fs input_folder ;;
     Ok (filter (is_image_file is_file fs) listing)).
Proof.
  unfold find_image_files.
  destruct (rglob fs input_folder) as [listing|e]; cbn [py_bind]; [|reflexivity].
  f_equal.
  assert (forall acc,
            fold_left (fun image_files file_path =>
                         if is_image_file is_file fs file_path
                         then image_files ++ [file_path] else image_files)
                      listing acc
            = acc ++ filter (is_image_file is_file fs) listing) as H.
  { induction listing as [|p l IH]; intros acc; cbn [fold_left filter].
    - rewrite app_nil_r. reflexivity.
    - rewrite IH. destruct (is_image_file is_file fs p); [|reflexivity].
      rewrite <- app_assoc. reflexivity. }
  apply (H []).
Qed.

(** X18.  A name has an image suffix exactly when it is a non-empty stem, a
    dot, and one of the seven extensions written in any mix of capitals and
    small letters: the comparison ignores case, only the last dot counts, and
    a name that begins with its only dot has no suffix. *)
Theorem image_suffix_any_case (name : string) :
  existsb (String.eqb (lower (suffix name))) image_extensions = true <->
  exists stem extension,
    name = (stem ++ String "." extension)%string /\ stem <> EmptyString /\
    In (lower extension) extension_names.
Proof.
  rewrite existsb_eqb_In. split.
  - intros Hin.
    assert (suffix name <> EmptyString) as Hne.
    { intros E. rewrite E in Hin. cbn [lower] in Hin.
      unfold image_extensions in Hin. cbn [In] in Hin.
      repeat (destruct Hin as [Hin|Hin]; [discriminate Hin|]). exact Hin. }
    destruct (suffix_inv name Hne) as (stem & rest & Hn & Hs & Hr & Hd & Hsuf).
    exists stem, rest. split; [exact Hn|]. split; [exact Hs|].
    rewrite Hsuf in Hin. cbn [lower] in Hin.
    change (ascii_lower ".") with "."%char in Hin.
    apply image_extensions_names. exact Hin.
  - intros (stem & rest & -> & Hs & Hin).
    destruct (extension_names_no_dot _ Hin) as [Hd Hne].
    rewrite has_dot_lower in Hd.
    rewrite suffix_app; try assumption.
    + cbn [lower]. change (ascii_lower ".") with "."%char.
      apply image_extensions_names. exact Hin.
    + intros E. apply Hne. apply lower_nonempty. exact E.
Qed.

(* ================================================================= *)
(** * Properties of the folder prompt *)

Module PromptFacts.

Lemma lstrip_head chars s :
  lstrip chars s = [] \/
  exists c t, lstrip chars s = c :: t /\ chars c = false.
Proof.
  induction s as [|c s IH]; cbn [lstrip]; [left; reflexivity|].
  destruct (chars c) eqn:E; [exact IH|].
  right. exists c, s. split; [reflexivity|exact E].
Qed.

Lemma lstrip_keep chars c t : chars c = false -> lstrip chars (c :: t) = c :: t.
Proof. intros E. cbn [lstrip]. rewrite E. reflexivity. Qed.

Lemma lstrip_snoc chars s c :
  chars c = false -> lstrip chars (s ++ [c]) = lstrip chars s ++ [c].
Proof.
  intros E. induction s as [|d s IH]; cbn [lstrip app].
  - rewrite E. reflexivity.
  - destruct (chars d); [exact IH|reflexivity].
Qed.

Lemma lstrip_idem chars s : lstrip chars (lstrip chars s) = lstrip chars s.
Proof.
  destruct (lstrip_head chars s) as [->|(c & t & -> & E)]; [reflexivity|].
  apply lstrip_keep. exact E.
Qed.

(** What [strip] returns is empty, or begins and ends with a character that
    is kept. *)
Lemma strip_ends chars s :
  strip chars s = [] \/
  exists c t d u,
    strip chars s = c :: t /\ chars c = false /\
    rev (strip chars s) = d :: u /\ chars d = false.
Proof.
  unfold strip, rstrip.
  destruct (lstrip_head chars s) as [->|(c & t & -> & Ec)];
    [left; reflexivity|].
  right. cbn [rev]. rewrite (lstrip_snoc chars (rev t) c Ec).
  rewrite rev_app_distr. cbn [rev app].
  destruct (lstrip_head chars (rev t)) as [E|(d & u & E & Ed)].
  - rewrite E. cbn [rev app]. exists c, [], c, []. auto.
  - rewrite E. exists c, (rev (d :: u)), d, (u ++ [c]).
    repeat split; try assumption.
    rewrite rev_involutive. reflexivity.
Qed.

Lemma strip_idem chars s : strip chars (strip chars s) = strip chars s.
Proof.
  destruct (strip_ends chars s) as [->|(c & t & d & u & E1 & Ec & E2 & Ed)];
    [reflexivity|].
  unfold strip at 1, rstrip. rewrite E1, (lstrip_keep chars c t Ec), <- E1.
  rewrite E2, (lstrip_keep chars d u Ed), <- E2. apply rev_involutive.
Qed.

End PromptFacts.

Import PromptFacts.

Section PromptSteps.

Context {FS : Type}.
Variable Path_of : PyStr -> Path.
Variable path_exists : FS -> Path -> bool.
Variable is_dir : FS -> Path -> bool.

(** One round of the loop: the line is accepted and returned, or rejected
    and the loop goes on with the lines that follow. *)
Lemma get_folder_path_step fs must_exist line stdin :
  (accepted Path_of path_exists is_dir fs must_exist line /\
   get_folder_path Path_of path_exists is_dir fs must_exist (line :: stdin)
   = Some (Path_of (path_str line), stdin)) \/
  (~ accepted Path_of path_exists is_dir fs must_exist line /\
   get_folder_path Path_of path_exists is_dir fs must_exist (line :: stdin)
   = get_folder_path Path_of path_exists is_dir fs must_exist stdin).
Proof.
  unfold accepted. cbn [get_folder_path].
  destruct (path_str line) as [|c s] eqn:Es.
  - right. split; [|reflexivity]. intros [Hne _]. apply Hne. reflexivity.
  - destruct must_exist; cbn [andb].
    + destruct (path_exists fs (Path_of (c :: s))) eqn:Ee; cbn [negb].
      * destruct (is_dir fs (Path_of (c :: s))) eqn:Ed; cbn [negb].
        -- left. split; [|reflexivity]. split; [discriminate|auto].
        -- right. split; [|reflexivity].
           intros [_ H]. destruct (H eq_refl) as [_ H2]. discriminate H2.
      * right. split; [|reflexivity].
        intros [_ H]. destruct (H eq_refl) as [H1 _]. discriminate H1.
    + left. split; [|reflexivity]. split; discriminate.
Qed.

End PromptSteps.

Lemma get_folder_path_split {FS : Type} (Path_of : PyStr -> Path)
    (path_exists is_dir : FS -> Path -> bool)
    (fs : FS) (must_exist : bool) (stdin : list PyStr) :
  (get_folder_path Path_of path_exists is_dir fs must_exist stdin = None /\
   Forall (fun line => ~ accepted Path_of path_exists is_dir fs must_exist line)
          stdin) \/
  (exists skipped line rest,
     stdin = skipped ++ line :: rest /\
     Forall (fun line => ~ accepted Path_of path_exists is_dir fs must_exist line)
            skipped /\
     accepted Path_of path_exists is_dir fs must_exist line /\
     get_folder_path Path_of path_exists is_dir fs must_exist stdin
     = Some (Path_of (path_str line), rest)).
Proof.
  induction stdin as [|line stdin IH].
  - left. split; [reflexivity|constructor].
  - destruct (get_folder_path_step Path_of path_exists is_dir fs must_exist
                line stdin) as [[Hacc Hres]|[Hrej Hres]].
    + right. exists [], line, stdin.
      split; [reflexivity|]. split; [constructor|]. split; assumption.
    + rewrite Hres.
      destruct IH as [[Hn Hall]|(skipped & l0 & rest & -> & Hall & Hacc & Hr)].
      * left. split; [exact Hn|]. constructor; assumption.
      * right. exists (line :: skipped), l0, rest.
        split; [reflexivity|]. split; [constructor; assumption|].
        split; assumption.
Qed.

(** X19.  [get_folder_path] returns the path of the first line that a round
    accepts and leaves the lines after it; every line before it was rejected.
    When the input runs out, no line of it was acceptable. *)
Theorem get_folder_path_cases {FS : Type} (Path_of : PyStr -> Path)
    (path_exists is_dir : FS -> Path -> bool)
    (fs : FS) (must_exist : bool) (stdin : list PyStr) :
  match get_folder_path Path_of path_exists is_dir fs must_exist stdin with
  | None =>
      Forall (fun line =>
                ~ accepted Path_of path_exists is_dir fs must_exist line) stdin
  | Some (path, rest) =>
      exists skipped line,
        stdin = skipped ++ line :: rest /\
        Forall (fun line =>
                  ~ accepted Path_of path_exists is_dir fs must_exist line)
               skipped /\
        accepted Path_of path_exists is_dir fs must_exist line /\
        path = Path_of (path_str line)
  end.
Proof.
  destruct (get_folder_path_split Path_of path_exists is_dir fs must_exist stdin)
    as [[-> Hall]|(skipped & line & rest & E & Hall & Hacc & ->)].
  - exact Hall.
  - exists skipped, line. auto.
Qed.

(** X20.  With [must_exist], the path returned exists and is a directory,
    and at least one line of input was consumed. *)
Theorem get_folder_path_checked {FS : Type} (Path_of : PyStr -> Path)
    (path_exists is_dir : FS -> Path -> bool)
    (fs : FS) (stdin rest : list PyStr) (path : Path) :
  get_folder_path Path_of path_exists is_dir fs true stdin = Some (path, rest) ->
  path_exists fs path = true /\ is_dir fs path = true /\
  (List.length rest < List.length stdin)%nat.
Proof.
  destruct (get_folder_path_split Path_of path_exists is_dir fs true stdin)
    as [[Hn _]|(skipped & line & rest' & -> & _ & [_ Hacc] & Hres)].
  - congruence.
  - rewrite Hres. intros [= <- <-].
    destruct (Hacc eq_refl) as [He Hd]. repeat split; try assumption.
    rewrite length_app. cbn [List.length]. lia.
Qed.

Lemma get_folder_path_checked_witness :
  toy_exists [["/tmp"%string]] ["/tmp"%string] = true /\
  toy_exists [["/tmp"%string]] ["/tmp"%string] = true /\
  (List.length (@nil PyStr) < List.length toy_stdin)%nat.
Proof.
  apply (get_folder_path_checked toy_Path_of toy_exists toy_exists
           [["/tmp"%string]] toy_stdin [] ["/tmp"%string]).
  vm_compute. reflexivity.
Defined.

(** X21.  Without [must_exist] the file system is not consulted: the result
    is the same on every file system, and the input runs out exactly when every
    line is empty after stripping. *)
Theorem get_folder_path_unchecked {FS FS' : Type} (Path_of : PyStr -> Path)
    (path_exists is_dir : FS -> Path -> bool)
    (path_exists' is_dir' : FS' -> Path -> bool)
    (fs : FS) (fs' : FS') (stdin : list PyStr) :
  get_folder_path Path_of path_exists is_dir fs false stdin
  = get_folder_path Path_of path_exists' is_dir' fs' false stdin /\
  (get_folder_path Path_of path_exists is_dir fs false stdin = None <->
   Forall (fun line => path_str line = []) stdin).
Proof.
  split.
  - induction stdin as [|line stdin IH]; cbn [get_folder_path];
      [reflexivity|].
    destruct (path_str line); [exact IH|reflexivity].
  - induction stdin as [|line stdin IH]; cbn [get_folder_path].
    + split; [constructor|reflexivity].
    + destruct (path_str line) as [|c s] eqn:E.
      * rewrite IH. split; [intros H; constructor; assumption|].
        intros H. inversion H. assumption.
      * cbn [andb]. split; [discriminate|].
        intros H. inversion H. congruence.
Qed.

(** X22.  The string handed to [Path] neither begins nor ends with a quote
    character; stripping the quotes again changes nothing, and neither does
    stripping white space twice. *)
Theorem path_str_ends (line : PyStr) :
  (forall c t, path_str line = c :: t -> is_quote c = false) /\
  (forall c t, path_str line = t ++ [c] -> is_quote c = false) /\
  strip is_quote (path_str line) = path_str line /\
  strip isspace (strip isspace line) = strip isspace line.
Proof.
  unfold path_str.
  split; [|split; [|split; apply strip_idem]].
  - intros c t E.
    destruct (strip_ends is_quote (strip isspace line))
      as [E0|(c' & t' & _ & _ & E1 & Ec & _)]; congruence.
  - intros c t E.
    destruct (strip_ends is_quote (strip isspace line))
      as [E0|(_ & _ & d & u & _ & _ & E2 & Ed)].
    + rewrite E0 in E. destruct t; discriminate.
    + rewrite E, rev_app_distr in E2. cbn [rev app] in E2. congruence.
Qed.
